(** * Build-time content pipeline of the church website

    A shallow embedding of the data jobs of the site generator:

    - [src/_data/sermons.js]: the scripture normaliser, the duration
      parser, the construction of sermon entries and of the filter facets;
    - the calendar data file: the expansion of recurring events over the
      seven-day window;
    - [scripts/optimize-images.js]: the skip policy, the resolution of
      image paths and the conditional write-back of HTML files.

    JavaScript strings are modelled by [string]: a character is a UTF-16
    code unit below 256.  All string literals of the sources are ASCII. *)

From Stdlib Require Import ZArith QArith List Bool Ascii String Lia Permutation.
From Stdlib Require Import DecimalString Sorted.
From Stdlib Require DecimalNat.
Import ListNotations.

Local Open Scope string_scope.
Local Open Scope Z_scope.

(* ================================================================== *)
(** * Part I: the programs *)
(* ================================================================== *)

(** ** JavaScript strings *)

Module JS.

(** Code unit of a character. *)
Definition code (c : ascii) : N := N_of_ascii c.

Definition between (lo hi : N) (c : ascii) : bool :=
  ((lo <=? code c) && (code c <=? hi))%N.

(** [WhiteSpace] and [LineTerminator] code units below 256: TAB, LF, VT,
    FF, CR, SPACE and NBSP.  This is the set of [\s], of
    [String.prototype.trim] and of [StrWhiteSpace]. *)
Definition isWhiteSpace (c : ascii) : bool :=
  between 9 13 c || (code c =? 32)%N || (code c =? 160)%N.

Definition isDigit (c : ascii) : bool := between 48 57 c.
Definition isUpper (c : ascii) : bool := between 65 90 c.
Definition isLower (c : ascii) : bool := between 97 122 c.
(** The class [[A-Za-z]]. *)
Definition isAlpha (c : ascii) : bool := isUpper c || isLower c.

(** Value of a decimal digit. *)
Definition digitVal (c : ascii) : Z := Z.of_N (code c) - 48.

(** [toLowerCase] on one code unit: A-Z, and the Latin-1 capitals
    U+00C0..U+00DE except the multiplication sign U+00D7. *)
Definition lowerChar (c : ascii) : ascii :=
  if isUpper c || (between 192 222 c && negb (code c =? 215)%N)
  then ascii_of_N (code c + 32) else c.

Fixpoint toLowerCase (s : string) : string :=
  match s with
  | EmptyString => EmptyString
  | String c r => String (lowerChar c) (toLowerCase r)
  end.

Fixpoint trimStart (s : string) : string :=
  match s with
  | String c r => if isWhiteSpace c then trimStart r else s
  | EmptyString => EmptyString
  end.

Fixpoint trimEnd (s : string) : string :=
  match s with
  | EmptyString => EmptyString
  | String c r =>
      match trimEnd r with
      | EmptyString => if isWhiteSpace c then EmptyString else String c EmptyString
      | t => String c t
      end
  end.

(** [String.prototype.trim]. *)
Definition trim (s : string) : string := trimEnd (trimStart s).

(** [s.startsWith(p)]. *)
Fixpoint startsWith (s p : string) : bool :=
  match p, s with
  | EmptyString, _ => true
  | String _ _, EmptyString => false
  | String a p', String b s' => Ascii.eqb a b && startsWith s' p'
  end.

(** [s.endsWith(p)]. *)
Fixpoint endsWith (s p : string) : bool :=
  String.eqb s p ||
  match s with
  | EmptyString => false
  | String _ r => endsWith r p
  end.

(** [s.slice(n)] for [0 <= n]. *)
Fixpoint slice (s : string) (n : nat) : string :=
  match n, s with
  | O, _ => s
  | S _, EmptyString => EmptyString
  | S k, String _ r => slice r k
  end.

(** [s.split(sep)] for a separator of one character: never empty. *)
Fixpoint split (sep : ascii) (s : string) : list string :=
  match s with
  | EmptyString => [EmptyString]
  | String c r =>
      if Ascii.eqb c sep then EmptyString :: split sep r
      else match split sep r with
           | p :: ps => String c p :: ps
           | [] => [String c EmptyString]
           end
  end.

(** Longest prefix of characters satisfying [p], and what follows it. *)
Fixpoint span (p : ascii -> bool) (s : string) : string * string :=
  match s with
  | String c r =>
      if p c then let (a, b) := span p r in (String c a, b)
      else (EmptyString, s)
  | EmptyString => (EmptyString, EmptyString)
  end.

(** Value of a string of decimal digits, most significant first. *)
Fixpoint digitsValueFrom (acc : Z) (s : string) : Z :=
  match s with
  | EmptyString => acc
  | String c r => digitsValueFrom (10 * acc + digitVal c) r
  end.
Definition digitsValue (s : string) : Z := digitsValueFrom 0 s.

(** The values a feed field or an argument can hold, as far as the
    scripts tell them apart. *)
Inductive value : Type :=
| VUndefined
| VNull
| VBool (b : bool)
| VNum (n : Z)
| VStr (s : string)
| VObject.

(** [ToBoolean]. *)
Definition truthy (v : value) : bool :=
  match v with
  | VUndefined | VNull => false
  | VBool b => b
  | VNum n => negb (n =? 0)
  | VStr s => negb (String.eqb s "")
  | VObject => true
  end.

(** A field that holds a string or is absent. *)
Definition field := option string.

(** [f || d] for a string field [f] and a string default [d]. *)
Definition orElse (f : field) (d : string) : string :=
  match f with
  | Some s => if String.eqb s "" then d else s
  | None => d
  end.

(** [f || g] for two string fields. *)
Definition orField (f g : field) : field :=
  match f with
  | Some s => if String.eqb s "" then g else f
  | None => g
  end.

End JS.

(** ** JavaScript arrays *)

Module Arr.

Section Arrays.
Context {A : Type}.

(** [Array.prototype.sort(cmp)]: the order is stable, and [a] is put
    before [b] when [cmp a b < 0].  For a comparator that is not a
    consistent order the standard leaves the resulting order to the
    engine; the model is the stable insertion sort, which every engine
    agrees with on a consistent comparator. *)
Fixpoint insertBy (cmp : A -> A -> Z) (x : A) (l : list A) : list A :=
  match l with
  | [] => [x]
  | y :: r => if 0 <? cmp y x then x :: l else y :: insertBy cmp x r
  end.

Definition sortBy (cmp : A -> A -> Z) (l : list A) : list A :=
  fold_left (fun acc x => insertBy cmp x acc) l [].

(** [[...new Set(l)]]: the distinct elements, each at the place of its
    first occurrence. *)
Fixpoint addNew (eqb : A -> A -> bool) (seen : list A) (l : list A) : list A :=
  match l with
  | [] => []
  | x :: r =>
      if existsb (eqb x) seen then addNew eqb seen r
      else x :: addNew eqb (x :: seen) r
  end.

Definition setOf (eqb : A -> A -> bool) (l : list A) : list A := addNew eqb [] l.

(** For the comparator [cmp], [a] may stand before [b]. *)
Definition inOrder (cmp : A -> A -> Z) (a b : A) : Prop := cmp a b <= 0.

End Arrays.

(** The comparator of [sort()] without argument, on strings: the order
    of the code units. *)
Definition defaultCompare (a b : string) : Z :=
  match String.compare a b with
  | Lt => -1
  | Eq => 0
  | Gt => 1
  end.

End Arr.

(** ** JavaScript numbers

    A finite number is modelled by the rational it denotes.  Rounding to
    binary64, overflow to an infinity and the sign of zero are not
    modelled: the model is exact on integers of magnitude below [2^53]
    as long as every intermediate result stays below that bound. *)

Module Num.
Import JS.

Inductive number : Type :=
| NaN
| Inf (negative : bool)
| Fin (q : Q).

Definition fin (q : Q) : number := Fin (Qred q).
Definition ofZ (z : Z) : number := Fin (inject_Z z).

Definition add (a b : number) : number :=
  match a, b with
  | NaN, _ | _, NaN => NaN
  | Inf s, Inf t => if Bool.eqb s t then Inf s else NaN
  | Inf s, Fin _ | Fin _, Inf s => Inf s
  | Fin p, Fin q => fin (p + q)
  end.

Definition scaleInf (s : bool) (q : Q) : number :=
  match Qnum q with
  | Z0 => NaN
  | Zpos _ => Inf s
  | Zneg _ => Inf (negb s)
  end.

Definition mul (a b : number) : number :=
  match a, b with
  | NaN, _ | _, NaN => NaN
  | Inf s, Inf t => Inf (xorb s t)
  | Inf s, Fin q | Fin q, Inf s => scaleInf s q
  | Fin p, Fin q => fin (p * q)
  end.

(** A leading [+] or [-]: whether the sign is negative, and the rest. *)
Definition stripSign (s : string) : bool * string :=
  match s with
  | String "+" r => (false, r)
  | String "-" r => (true, r)
  | _ => (false, s)
  end.

Definition signed (negative : bool) (z : Z) : Z := if negative then - z else z.

(** Value of a digit in the given radix, if it is one. *)
Definition radixDigit (radix : Z) (c : ascii) : option Z :=
  let v := if isDigit c then digitVal c
           else if between 97 122 c then Z.of_N (code c) - 87
           else if between 65 90 c then Z.of_N (code c) - 55
           else radix in
  if v <? radix then Some v else None.

(** Longest prefix of digits of the radix: its value, whether it is
    empty, and what follows. *)
Fixpoint radixPrefix (radix : Z) (acc : Z) (seen : bool) (s : string)
  : Z * bool * string :=
  match s with
  | String c r =>
      match radixDigit radix c with
      | Some v => radixPrefix radix (radix * acc + v) true r
      | None => (acc, seen, s)
      end
  | EmptyString => (acc, seen, s)
  end.

(** [NonDecimalIntegerLiteral]: 0b, 0o or 0x and at least one digit. *)
Definition nonDecimalLiteral (s : string) : option Z :=
  match s with
  | String "0" (String p r) =>
      let radix := if (Ascii.eqb p "x" || Ascii.eqb p "X")%bool then 16
                   else if (Ascii.eqb p "o" || Ascii.eqb p "O")%bool then 8
                   else if (Ascii.eqb p "b" || Ascii.eqb p "B")%bool then 2
                   else 0 in
      if radix =? 0 then None else
      match radixPrefix radix 0 false r with
      | (v, true, EmptyString) => Some v
      | _ => None
      end
  | _ => None
  end.

(** [ExponentPart], or nothing, up to the end of the string. *)
Definition exponentPart (s : string) : option Z :=
  match s with
  | EmptyString => Some 0
  | String c r =>
      if (Ascii.eqb c "e" || Ascii.eqb c "E")%bool then
        let (negative, ds) := stripSign r in
        match span isDigit ds with
        | (EmptyString, _) => None
        | (d, EmptyString) => Some (signed negative (digitsValue d))
        | _ => None
        end
      else None
  end.

(** [StrUnsignedDecimalLiteral]. *)
Definition unsignedDecimalLiteral (s : string) : option number :=
  if String.eqb s "Infinity" then Some (Inf false) else
  let (ip, r1) := span isDigit s in
  let (fp, r2) := match r1 with
                  | String "." r => span isDigit r
                  | _ => (EmptyString, r1)
                  end in
  if (String.eqb ip "" && String.eqb fp "")%bool then None else
  match exponentPart r2 with
  | Some e =>
      Some (fin (inject_Z (digitsValue (ip ++ fp))
                 * Qpower 10 (e - Z.of_nat (String.length fp))))
  | None => None
  end.

Definition negate (n : number) : number :=
  match n with
  | NaN => NaN
  | Inf s => Inf (negb s)
  | Fin q => fin (- q)
  end.

(** [Number(s)] on a string: [StringToNumber]. *)
Definition Number (s : string) : number :=
  let t := trim s in
  if String.eqb t "" then ofZ 0 else
  match nonDecimalLiteral t with
  | Some v => ofZ v
  | None =>
      let (negative, u) := stripSign t in
      match unsignedDecimalLiteral u with
      | Some n => if negative then negate n else n
      | None => NaN
      end
  end.

(** [parseInt(s)] without a radix, on a string or on [undefined];
    [None] is NaN.  The result is compared with zero and with 100 only,
    which rounding to binary64 does not change. *)
Definition parseInt (f : field) : option Z :=
  match f with
  | None => None
  | Some s =>
      let (negative, u) := stripSign (trimStart s) in
      let (radix, ds) :=
        match u with
        | String "0" (String p r) =>
            if (Ascii.eqb p "x" || Ascii.eqb p "X")%bool then (16, r) else (10, u)
        | _ => (10, u)
        end in
      match radixPrefix radix 0 false ds with
      | (v, true, _) => Some (signed negative v)
      | _ => None
      end
  end.

End Num.

(** ** src/_data/sermons.js *)

Module Sermons.
Import JS.

(** The object literal [bookNormalization], in the order of its keys:
    none of them is an array index, so [Object.entries] lists them in
    insertion order. *)
Definition bookNormalization : list (string * string) :=
  [ ("genesis", "Genesis"); ("gen", "Genesis");
    ("exodus", "Exodus"); ("exod", "Exodus");
    ("leviticus", "Leviticus"); ("lev", "Leviticus");
    ("numbers", "Numbers"); ("num", "Numbers");
    ("deuteronomy", "Deuteronomy"); ("deut", "Deuteronomy");
    ("joshua", "Joshua"); ("josh", "Joshua");
    ("judges", "Judges"); ("judg", "Judges");
    ("ruth", "Ruth");
    ("1 samuel", "1 Samuel"); ("1 sam", "1 Samuel");
    ("2 samuel", "2 Samuel"); ("2 sam", "2 Samuel");
    ("1 kings", "1 Kings"); ("1 kgs", "1 Kings");
    ("2 kings", "2 Kings"); ("2 kgs", "2 Kings");
    ("1 chronicles", "1 Chronicles"); ("1 chr", "1 Chronicles");
    ("2 chronicles", "2 Chronicles"); ("2 chr", "2 Chronicles");
    ("ezra", "Ezra");
    ("nehemiah", "Nehemiah"); ("neh", "Nehemiah");
    ("esther", "Esther"); ("esth", "Esther");
    ("job", "Job");
    ("psalms", "Psalms"); ("psalm", "Psalms"); ("ps", "Psalms");
    ("proverbs", "Proverbs"); ("prov", "Proverbs");
    ("ecclesiastes", "Ecclesiastes"); ("eccl", "Ecclesiastes");
    ("song of solomon", "Song of Solomon");
    ("song of songs", "Song of Solomon");
    ("song", "Song of Solomon");
    ("isaiah", "Isaiah"); ("isa", "Isaiah");
    ("jeremiah", "Jeremiah"); ("jer", "Jeremiah");
    ("lamentations", "Lamentations"); ("lam", "Lamentations");
    ("ezekiel", "Ezekiel"); ("ezek", "Ezekiel");
    ("daniel", "Daniel"); ("dan", "Daniel");
    ("hosea", "Hosea"); ("hos", "Hosea");
    ("joel", "Joel");
    ("amos", "Amos");
    ("obadiah", "Obadiah"); ("obad", "Obadiah");
    ("jonah", "Jonah");
    ("micah", "Micah"); ("mic", "Micah");
    ("nahum", "Nahum"); ("nah", "Nahum");
    ("habakkuk", "Habakkuk"); ("hab", "Habakkuk");
    ("zephaniah", "Zephaniah"); ("zeph", "Zephaniah");
    ("haggai", "Haggai"); ("hag", "Haggai");
    ("zechariah", "Zechariah"); ("zech", "Zechariah");
    ("malachi", "Malachi"); ("mal", "Malachi");
    ("matthew", "Matthew"); ("matt", "Matthew");
    ("mark", "Mark");
    ("luke", "Luke");
    ("john", "John");
    ("acts", "Acts");
    ("romans", "Romans"); ("rom", "Romans");
    ("1 corinthians", "1 Corinthians"); ("1 cor", "1 Corinthians");
    ("2 corinthians", "2 Corinthians"); ("2 cor", "2 Corinthians");
    ("galatians", "Galatians"); ("galations", "Galatians"); ("gal", "Galatians");
    ("ephesians", "Ephesians"); ("eph", "Ephesians");
    ("philippians", "Philippians"); ("phillipians", "Philippians");
    ("phil", "Philippians");
    ("colossians", "Colossians"); ("col", "Colossians");
    ("1 thessalonians", "1 Thessalonians"); ("1 thess", "1 Thessalonians");
    ("2 thessalonians", "2 Thessalonians"); ("2 thess", "2 Thessalonians");
    ("1 timothy", "1 Timothy"); ("1 tim", "1 Timothy");
    ("2 timothy", "2 Timothy"); ("2 tim", "2 Timothy");
    ("titus", "Titus");
    ("philemon", "Philemon"); ("phlm", "Philemon");
    ("hebrews", "Hebrews"); ("heb", "Hebrews");
    ("james", "James"); ("jas", "James");
    ("1 peter", "1 Peter"); ("1 pet", "1 Peter");
    ("2 peter", "2 Peter"); ("2 pet", "2 Peter");
    ("1 john", "1 John");
    ("2 john", "2 John");
    ("3 john", "3 John");
    ("jude", "Jude");
    ("revelation", "Revelation"); ("rev", "Revelation") ].

(** The test of the loop body:
    [lowerText.startsWith(variant + " ") || lowerText === variant]. *)
Definition matchesVariant (lowerText variant : string) : bool :=
  startsWith lowerText (variant ++ " ") || String.eqb lowerText variant.

(** The [for ... of Object.entries(...)] loop: the first entry whose
    variant matches decides the result. *)
Fixpoint normalizeWith (entries : list (string * string))
                       (cleaned lowerText : string) : string :=
  match entries with
  | [] => cleaned
  | (variant, canonical) :: rest =>
      if matchesVariant lowerText variant then
        let remainder := trim (slice cleaned (String.length variant)) in
        canonical ++ (if String.eqb remainder "" then "" else " " ++ remainder)
      else normalizeWith rest cleaned lowerText
  end.

Definition normalizeScripture (text : value) : string :=
  match text with
  | VStr s =>
      if String.eqb s "" then ""
      else let cleaned := trim s in
           normalizeWith bookNormalization cleaned (toLowerCase cleaned)
  | _ => ""
  end.

(** [scripture.match(/^(\d?\s?[A-Za-z]+)/)], then [match[1].trim()].
    Each optional item is greedy, and giving one up never lets the rest
    match, so the three items are consumed in turn. *)
Definition extractBook (scripture : string) : string :=
  if String.eqb scripture "" then "" else
  let (d, r1) := match scripture with
                 | String c r => if isDigit c then (String c "", r) else ("", scripture)
                 | EmptyString => ("", scripture)
                 end in
  let (w, r2) := match r1 with
                 | String c r => if isWhiteSpace c then (String c "", r) else ("", r1)
                 | EmptyString => ("", r1)
                 end in
  let (letters, _) := span isAlpha r2 in
  if String.eqb letters "" then "" else trim (d ++ w ++ letters).

(** [parseDuration(durationStr)] on a duration field. *)
Definition parseDuration (durationStr : field) : Num.number :=
  match durationStr with
  | None => Num.ofZ 0
  | Some s =>
      if String.eqb s "" then Num.ofZ 0 else
      match map Num.Number (split ":" s) with
      | [h; m; sec] =>
          Num.add (Num.add (Num.mul h (Num.ofZ 3600)) (Num.mul m (Num.ofZ 60))) sec
      | [m; sec] => Num.add (Num.mul m (Num.ofZ 60)) sec
      | _ => Num.ofZ 0
      end
  end.

(** A feed item as the parser hands it over: every field is a string or
    is absent.  [speaker], [subtitle] and [duration] are the custom
    fields mapped from the iTunes namespace. *)
Record Item : Type := {
  itemTitle : field;
  itemSpeaker : field;
  itemSubtitle : field;
  itemDuration : field;
  itemContent : field;
  itemDescription : field;
  itemPubDate : field;
  itemEnclosureUrl : field;
  itemLink : field;
  itemGuid : field
}.

(** A sermon entry.  The fields [dateFormatted], [isoDate] and [year]
    come from the host's [Date] and [Intl] and are left out; a
    publication date that cannot be formatted makes the whole script
    fall back to the empty collection, so that no entry is built. *)
Record Sermon : Type := {
  id : nat;
  title : string;
  speaker : string;
  date : field;
  scripture : string;
  scriptureNormalized : string;
  book : string;
  series : string;
  duration : string;
  durationSeconds : Num.number;
  audioUrl : string;
  link : string;
  guid : string
}.

Definition indexString (index : nat) : string :=
  NilEmpty.string_of_uint (Nat.to_uint index).

(** The callback of [feed.items.map]. *)
Definition buildSermon (index : nat) (item : Item) : Sermon :=
  let scripture := orElse (orField (itemContent item) (itemDescription item)) "" in
  let normalizedScripture := normalizeScripture (VStr scripture) in
  let book := extractBook normalizedScripture in
  {| id := index;
     title := orElse (itemTitle item) "Untitled Sermon";
     speaker := orElse (itemSpeaker item) "Unknown Speaker";
     date := itemPubDate item;
     scripture := scripture;
     scriptureNormalized := normalizedScripture;
     book := book;
     series := orElse (itemSubtitle item) "";
     duration := orElse (itemDuration item) "";
     durationSeconds := parseDuration (itemDuration item);
     audioUrl := orElse (itemEnclosureUrl item) "";
     link := orElse (itemLink item) "";
     guid := orElse (orField (itemGuid item) (itemLink item))
                    ("sermon-" ++ indexString index) |}.

Fixpoint mapIndexed {A B : Type} (f : nat -> A -> B) (i : nat) (l : list A) : list B :=
  match l with
  | [] => []
  | x :: r => f i x :: mapIndexed f (S i) r
  end.

(** [a.match(/^(\d+)/)]: the leading digits, if there is one. *)
Definition leadingNumber (a : string) : option string :=
  match span isDigit a with
  | (EmptyString, _) => None
  | (d, _) => Some d
  end.

(** [a.replace(/^\d+\s*/, '')]. *)
Definition withoutNumber (a : string) : string :=
  match span isDigit a with
  | (EmptyString, _) => a
  | (_, r) => trimStart r
  end.

(** The comparator of the books facet.  [collate] is
    [String.prototype.localeCompare] in the default locale of the host.
    [parseInt] is applied to digits only; its value is exact below
    [2^53]. *)
Definition compareBooks (collate : string -> string -> Z) (a b : string) : Z :=
  match leadingNumber a, leadingNumber b with
  | Some aNum, Some bNum =>
      if String.eqb (withoutNumber a) (withoutNumber b)
      then digitsValue aNum - digitsValue bNum
      else collate a b
  | _, _ => collate a b
  end.

Section Collection.

(** The host: [dateValue] is the time value of [new Date(s.date)], or
    [None] for an invalid date; [collate] is [localeCompare]. *)
Variable dateValue : field -> option Z.
Variable collate : string -> string -> Z.

(** [new Date(b.date) - new Date(a.date)]; NaN counts as zero. *)
Definition compareDates (a b : Sermon) : Z :=
  match dateValue (date b), dateValue (date a) with
  | Some tb, Some ta => tb - ta
  | _, _ => 0
  end.

Definition sermonsOf (items : list Item) : list Sermon :=
  Arr.sortBy compareDates (mapIndexed buildSermon 0 items).

Definition speakersFacet (sermons : list Sermon) : list string :=
  Arr.sortBy Arr.defaultCompare (Arr.setOf String.eqb (map speaker sermons)).

Definition booksFacet (sermons : list Sermon) : list string :=
  Arr.sortBy (compareBooks collate)
    (Arr.setOf String.eqb
       (filter (fun b => negb (String.eqb b "")) (map book sermons))).

Record Meta : Type := {
  total : nat;
  speakers : list string;
  books : list string
}.

(** The collection returned when the feed was fetched and parsed; the
    years facet and the feed title are left out with the dates. *)
Definition collection (items : list Item) : list Sermon * Meta :=
  let sermons := sermonsOf items in
  (sermons,
   {| total := List.length sermons;
      speakers := speakersFacet sermons;
      books := booksFacet sermons |}).

End Collection.

(** A collation for book names: white space, then digits, then letters
    without regard to case, and between strings that differ in case
    only, the lower case letter first.  On strings made of ASCII
    letters, digits and spaces this is the order of the root locale;
    other characters are placed by code unit, before the digits for
    ASCII punctuation and after the letters for the rest, which is an
    approximation. *)
Definition primaryWeight (c : ascii) : N :=
  if isDigit c then 1000 + code c
  else if isUpper c then 2000 + code c + 32
  else if isLower c then 2000 + code c
  else if (code c <? 128)%N then code c
  else 3000 + code c.

Fixpoint comparePrimary (a b : string) : comparison :=
  match a, b with
  | EmptyString, EmptyString => Eq
  | EmptyString, String _ _ => Lt
  | String _ _, EmptyString => Gt
  | String x a', String y b' =>
      match N.compare (primaryWeight x) (primaryWeight y) with
      | Eq => comparePrimary a' b'
      | o => o
      end
  end.

(** Between strings of equal primary weights: the first difference of
    case decides. *)
Fixpoint compareCase (a b : string) : comparison :=
  match a, b with
  | String x a', String y b' =>
      match Bool.compare (isUpper x) (isUpper y) with
      | Eq => compareCase a' b'
      | o => o
      end
  | _, _ => Eq
  end.

Definition rootCollate (a b : string) : Z :=
  match comparePrimary a b with
  | Lt => -1
  | Gt => 1
  | Eq => match compareCase a b with
          | Lt => -1
          | Gt => 1
          | Eq => 0
          end
  end.

End Sermons.

(** ** The calendar data file *)

Module Calendar.
Import JS.

(** A [Date] is modelled by its time value, in milliseconds. *)
Definition time := Z.

Definition WEEK : Z := 7 * 24 * 60 * 60 * 1000.

Section Events.

(** The recurrence rules of the [rrule] library.  [between r after
    before inc] is [r.between(after, before, inc)]: the occurrences
    between the two dates, or [None] when the call throws. *)
Variable RRule : Type.
Variable between : RRule -> time -> time -> bool -> option (list time).

(** An entry of the parsed feed. *)
Record Event : Type := {
  type : string;
  summary : field;
  start : option time;
  end_ : option time;
  location : field;
  description : field;
  datetype : field;
  rrule : option RRule
}.

(** An element of the list the data file returns; the pre-formatted
    date, which comes from the host's [Intl], is left out. *)
Record CalendarEvent : Type := {
  evTitle : string;
  evStart : time;
  evEnd : option time;
  evLocation : field;
  evDescription : field;
  isAllDay : bool
}.

(** [f || null]. *)
Definition orNull (f : field) : field :=
  match f with
  | Some s => if String.eqb s "" then None else f
  | None => None
  end.

Definition allDay (event : Event) : bool :=
  match datetype event with
  | Some s => String.eqb s "date"
  | None => false
  end.

Definition occurrence (event : Event) (date : time) (endDate : option time)
  : CalendarEvent :=
  {| evTitle := orElse (summary event) "Untitled Event";
     evStart := date;
     evEnd := endDate;
     evLocation := orNull (location event);
     evDescription := orNull (description event);
     isAllDay := allDay event |}.

(** The body of [if (event.rrule)]: what the [try] block pushes.  Inside
    the loop the duration is [event.end - event.start] when there is an
    end, and zero otherwise; with an end and no start, reading the start
    throws in the first round, before anything is pushed.  An error is
    caught and leaves the list as it is. *)
Definition expandRecurring (now : time) (event : Event) (rule : RRule)
  : list CalendarEvent :=
  match between rule now (now + WEEK) true with
  | None => []
  | Some dates =>
      match end_ event, start event with
      | Some e, Some s =>
          map (fun date => occurrence event date (Some (date + (e - s)))) dates
      | Some _, None => []
      | None, _ =>
          map (fun date => occurrence event date (Some (date + 0))) dates
      end
  end.

(** The [else] branch: a single event. *)
Definition singleEvent (now : time) (event : Event) : list CalendarEvent :=
  match start event with
  | None => []
  | Some eventDate =>
      if (eventDate <? now) || (now + WEEK <? eventDate) then []
      else [occurrence event eventDate (end_ event)]
  end.

Definition eventsOf (now : time) (event : Event) : list CalendarEvent :=
  if negb (String.eqb (type event) "VEVENT") then []
  else match rrule event with
       | Some rule => expandRecurring now event rule
       | None => singleEvent now event
       end.

(** The list the data file returns for the parsed entries. *)
Definition calendar (now : time) (events : list Event) : list CalendarEvent :=
  firstn 7
    (Arr.sortBy (fun a b => evStart a - evStart b)
       (flat_map (eventsOf now) events)).

End Events.

Arguments type {RRule} _.
Arguments summary {RRule} _.
Arguments start {RRule} _.
Arguments end_ {RRule} _.
Arguments location {RRule} _.
Arguments description {RRule} _.
Arguments datetype {RRule} _.
Arguments rrule {RRule} _.
Arguments expandRecurring {RRule} between now event rule.
Arguments singleEvent {RRule} now event.
Arguments eventsOf {RRule} between now event.
Arguments calendar {RRule} between now events.

(** A rule that repeats at a fixed interval: the occurrences are
    [first + k * every] for [k < count]. *)
Record Interval : Type := {
  first : time;
  every : Z;
  count : nat
}.

Definition occurrences (r : Interval) : list time :=
  map (fun k => first r + Z.of_nat k * every r) (seq 0 (count r)).

Definition intervalBetween (r : Interval) (after before : time) (inc : bool)
  : option (list time) :=
  Some (filter (fun d => if inc then (after <=? d) && (d <=? before)
                         else (after <? d) && (d <? before))
               (occurrences r)).

End Calendar.

(** ** Node's [path] module (POSIX) *)

Module Path.
Import JS.

(** The segments of [normalizeString], kept in reverse while the path
    is read. *)
Fixpoint normalizeSegments (allowAboveRoot : bool) (acc segs : list string)
  : list string :=
  match segs with
  | [] => rev acc
  | seg :: r =>
      if String.eqb seg "" || String.eqb seg "." then
        normalizeSegments allowAboveRoot acc r
      else if String.eqb seg ".." then
        match acc with
        | last :: acc' =>
            if negb (String.eqb last "..") then normalizeSegments allowAboveRoot acc' r
            else if allowAboveRoot then normalizeSegments allowAboveRoot (seg :: acc) r
            else normalizeSegments allowAboveRoot acc r
        | [] =>
            if allowAboveRoot then normalizeSegments allowAboveRoot [seg] r
            else normalizeSegments allowAboveRoot acc r
        end
      else normalizeSegments allowAboveRoot (seg :: acc) r
  end.

(** [path.normalize]. *)
Definition normalize (path : string) : string :=
  if String.eqb path "" then "." else
  let isAbsolute := startsWith path "/" in
  let trailingSeparator := endsWith path "/" in
  let p := String.concat "/"
             (normalizeSegments (negb isAbsolute) [] (split "/" path)) in
  if String.eqb p "" then
    if isAbsolute then "/" else if trailingSeparator then "./" else "."
  else
    let p' := if trailingSeparator then p ++ "/" else p in
    if isAbsolute then "/" ++ p' else p'.

(** [path.join(...paths)]. *)
Definition join (paths : list string) : string :=
  match filter (fun a => negb (String.eqb a "")) paths with
  | [] => "."
  | parts => normalize (String.concat "/" parts)
  end.

Fixpoint dropWhile {A : Type} (p : A -> bool) (l : list A) : list A :=
  match l with
  | x :: r => if p x then dropWhile p r else l
  | [] => []
  end.

Definition isSlash (c : ascii) : bool := Ascii.eqb c "/".

(** [path.dirname]: read from the end, the slashes that close the path
    and the last segment are dropped; the slash before them, if there is
    one after the first character, ends the result. *)
Definition dirname (path : string) : string :=
  match list_ascii_of_string path with
  | [] => "."
  | c0 :: rest =>
      let hasRoot := isSlash c0 in
      match dropWhile (fun c => negb (isSlash c)) (dropWhile isSlash (rev rest)) with
      | [] => if hasRoot then "/" else "."
      | _ :: before =>
          match before with
          | [] => if hasRoot then "//" else String c0 ""
          | _ => string_of_list_ascii (c0 :: rev before)
          end
      end
  end.

End Path.

(** ** scripts/optimize-images.js *)

Module Images.
Import JS.

Definition SITE_DIR : string := "_site".

(** The canonical form of a character under the flag [i]: the upper
    case of an ASCII letter; a character that is not ASCII never equals
    an ASCII one. *)
Definition canonicalize (c : ascii) : ascii :=
  if isLower c then ascii_of_N (code c - 32) else c.

Fixpoint startsWithCI (s p : string) : bool :=
  match p, s with
  | EmptyString, _ => true
  | String _ _, EmptyString => false
  | String a p', String b s' =>
      Ascii.eqb (canonicalize a) (canonicalize b) && startsWithCI s' p'
  end.

(** [/word/i.test(s)] for a pattern that is a plain word. *)
Fixpoint testCI (word s : string) : bool :=
  startsWithCI s word ||
  match s with
  | EmptyString => false
  | String _ r => testCI word r
  end.

(** The words of [SKIP_PATTERNS]. *)
Definition SKIP_PATTERNS : list string := ["favicon"; "logo"; "icon"].

(** A number or [null]; zero is falsy. *)
Definition truthyNumber (n : option Z) : bool :=
  match n with
  | Some v => negb (v =? 0)
  | None => false
  end.

Definition below (bound : Z) (n : option Z) : bool :=
  match n with
  | Some v => v <? bound
  | None => false
  end.

Definition shouldSkipImage (src : string) (width height : option Z) : bool :=
  if existsb (fun pattern => testCI pattern src) SKIP_PATTERNS then true
  else if truthyNumber width && truthyNumber height
          && (below 100 width || below 100 height) then true
  else if endsWith src ".svg" then true
  else if startsWith src "http://" || startsWith src "https://" then true
  else false.

(** The files on disk: the contents of each path that exists. *)
Definition Disk := string -> option string.

Definition writeFile (disk : Disk) (path content : string) : Disk :=
  fun p => if String.eqb p path then Some content else disk p.

(** A settled promise. *)
Inductive Promise (A : Type) : Type :=
| Fulfilled (a : A)
| Rejected.
Arguments Fulfilled {A} a.
Arguments Rejected {A}.

(** [fs.access(path)] of [fs/promises]. *)
Definition access (disk : Disk) (path : string) : Promise unit :=
  match disk path with
  | Some _ => Fulfilled tt
  | None => Rejected
  end.

Definition then_ {A B : Type} (p : Promise A) (f : A -> B) : Promise B :=
  match p with
  | Fulfilled a => Fulfilled (f a)
  | Rejected => Rejected
  end.

Definition catch_ {A : Type} (p : Promise A) (f : unit -> A) : Promise A :=
  match p with
  | Fulfilled a => Fulfilled a
  | Rejected => Fulfilled (f tt)
  end.

(** [ToBoolean] of a promise: it is an object, whatever it settles to. *)
Definition truthyPromise {A : Type} (p : Promise A) : bool := true.

(** [await p] inside [try { ... } catch { ... }]. *)
Definition awaitOk {A : Type} (p : Promise A) : bool :=
  match p with
  | Fulfilled _ => true
  | Rejected => false
  end.

Definition getImagePath (disk : Disk) (src htmlFilePath : string) : string :=
  if startsWith src "/" then
    let siteImagePath := Path.join [SITE_DIR; src] in
    if truthyPromise
         (catch_ (then_ (access disk siteImagePath) (fun _ => true))
                 (fun _ => false))
    then siteImagePath
    else Path.join ["src"; src]
  else
    let htmlDir := Path.dirname htmlFilePath in
    Path.join [htmlDir; src].

Section Rewriter.

(** The libraries.  [Dom] is a document loaded by cheerio: [load]
    parses, [images] is the selection [$('img')], in document order,
    [replaceWith dom i html] replaces the [i]-th selected element, and
    [html] serialises.  [Image] is eleventy-img: the metadata of the
    variants of a source file, or [None] when it throws; the variant
    files it writes are images, and are not tracked on the modelled
    disk.  [generatePictureHtml] builds the markup from the metadata and
    the attributes of the element. *)
Variable Dom : Type.
Variable Metadata : Type.
Variable load : string -> Dom.
Variable images : Dom -> list (string -> option string).
Variable replaceWith : Dom -> nat -> string -> Dom.
Variable html : Dom -> string.
Variable Image : string -> option Metadata.
Variable generatePictureHtml : Metadata -> (string -> option string) -> string.

(** [processImage]: [null] is [None]. *)
Definition processImage (disk : Disk) (src htmlFilePath : string)
  : option Metadata :=
  let imagePath := getImagePath disk src htmlFilePath in
  if awaitOk (access disk imagePath) then Image imagePath else None.

(** [parseInt(attr) || null]. *)
Definition dimension (attr : option string) : option Z :=
  match Num.parseInt attr with
  | Some v => if v =? 0 then None else Some v
  | None => None
  end.

(** What the loop does with one image. *)
Inductive Outcome : Type :=
| NoSource
| Skipped
| Failed
| Transformed (metadata : Metadata).

Definition outcome (disk : Disk) (filePath : string)
                   (img : string -> option string) : Outcome :=
  match img "src" with
  | None => NoSource
  | Some src =>
      if String.eqb src "" then NoSource else
      let width := dimension (img "width") in
      let height := dimension (img "height") in
      if shouldSkipImage src width height then Skipped
      else match processImage disk src filePath with
           | None => Failed
           | Some metadata => Transformed metadata
           end
  end.

(** The state of the loop over the selection. *)
Record Loop : Type := {
  dom : Dom;
  processedCount : nat;
  skippedCount : nat
}.

Fixpoint processImages (disk : Disk) (filePath : string) (i : nat)
    (imgs : list (string -> option string)) (st : Loop) : Loop :=
  match imgs with
  | [] => st
  | img :: rest =>
      processImages disk filePath (S i) rest
        match outcome disk filePath img with
        | NoSource => st
        | Skipped | Failed =>
            {| dom := dom st;
               processedCount := processedCount st;
               skippedCount := S (skippedCount st) |}
        | Transformed metadata =>
            {| dom := replaceWith (dom st) i (generatePictureHtml metadata img);
               processedCount := S (processedCount st);
               skippedCount := skippedCount st |}
        end
  end.

(** The disk and the paths written, latest first. *)
Record World : Type := {
  disk : Disk;
  written : list string
}.

(** The loop of [processHtmlFile] on the contents of the file. *)
Definition processed (d : Disk) (filePath contents : string) : Loop :=
  let doc := load contents in
  processImages d filePath 0 (images doc)
    {| dom := doc; processedCount := 0; skippedCount := 0 |}.

(** [processHtmlFile]; [None] when reading the file throws. *)
Definition processHtmlFile (w : World) (filePath : string) : option World :=
  match disk w filePath with
  | None => None
  | Some contents =>
      match images (load contents) with
      | [] => Some w
      | _ =>
          let st := processed (disk w) filePath contents in
          if (0 <? processedCount st)%nat then
            Some {| disk := writeFile (disk w) filePath (html (dom st));
                    written := filePath :: written w |}
          else Some w
      end
  end.

(** The loop of [main] over the files found; [None] when it is
    interrupted by an error. *)
Fixpoint processFiles (w : World) (htmlFiles : list string) : option World :=
  match htmlFiles with
  | [] => Some w
  | file :: rest =>
      match processHtmlFile w file with
      | Some w' => processFiles w' rest
      | None => None
      end
  end.

End Rewriter.

Arguments NoSource {Metadata}.
Arguments Skipped {Metadata}.
Arguments Failed {Metadata}.
Arguments Transformed {Metadata} metadata.
Arguments processImage {Metadata} Image disk src htmlFilePath.
Arguments outcome {Metadata} Image disk filePath img.
Arguments dom {Dom} _.
Arguments processedCount {Dom} _.
Arguments skippedCount {Dom} _.
Arguments processImages {Dom Metadata} replaceWith Image generatePictureHtml
  disk filePath i imgs st.
Arguments processed {Dom Metadata} load images replaceWith Image
  generatePictureHtml d filePath contents.
Arguments processHtmlFile {Dom Metadata} load images replaceWith html Image
  generatePictureHtml w filePath.
Arguments processFiles {Dom Metadata} load images replaceWith html Image
  generatePictureHtml w htmlFiles.

End Images.

(** ** The site configuration: filters and icon shortcodes *)

Module Eleventy.
Import JS.

(** The class [\w]. *)
Definition isWord (c : ascii) : bool :=
  isAlpha c || isDigit c || Ascii.eqb c "_".

Definition isDash (c : ascii) : bool := Ascii.eqb c "-".

(** [s.replace(/\s+/g, '-')]: each run of white space becomes one dash;
    [inRun] tells that the character before was white. *)
Fixpoint dashSpaces (inRun : bool) (s : string) : string :=
  match s with
  | EmptyString => EmptyString
  | String c r =>
      if isWhiteSpace c then
        if inRun then dashSpaces true r else String "-" (dashSpaces true r)
      else String c (dashSpaces false r)
  end.

(** [s.replace(/[^\w\-]+/g, '')]. *)
Fixpoint keepWord (s : string) : string :=
  match s with
  | EmptyString => EmptyString
  | String c r =>
      if isWord c || isDash c then String c (keepWord r) else keepWord r
  end.

(** [s.replace(/\-\-+/g, '-')]: a run of two or more dashes becomes
    one dash, and a single dash stays. *)
Fixpoint collapseDashes (inRun : bool) (s : string) : string :=
  match s with
  | EmptyString => EmptyString
  | String c r =>
      if isDash c then
        if inRun then collapseDashes true r else String c (collapseDashes true r)
      else String c (collapseDashes false r)
  end.

(** The filter [slugify], on a string or an absent value. *)
Definition slugify (str : field) : string :=
  match str with
  | None => ""
  | Some s =>
      if String.eqb s "" then ""
      else collapseDashes false
             (keepWord (dashSpaces false (trim (toLowerCase s))))
  end.

(** An icon of an icon set, and the set, as read from its JSON file; a
    dimension is an integer or is absent. *)
Record Icon : Type := {
  iconBody : string;
  iconWidth : option Z;
  iconHeight : option Z
}.

Record IconSet : Type := {
  setIcons : string -> option Icon;
  setWidth : option Z;
  setHeight : option Z
}.

(** What [fetchIcon] returns for an icon it found. *)
Record IconData : Type := {
  body : string;
  viewBox : string;
  width : Z;
  height : Z
}.

(** [a || b] on numbers: zero is falsy. *)
Definition orNumber (a : option Z) (b : Z) : Z :=
  match a with
  | Some v => if v =? 0 then b else v
  | None => b
  end.

(** Template text of an integer. *)
Definition numberText (z : Z) : string := NilEmpty.string_of_int (Z.to_int z).

(** [s.includes(':')]. *)
Fixpoint includesColon (s : string) : bool :=
  match s with
  | EmptyString => false
  | String c r => Ascii.eqb c ":" || includesColon r
  end.

(** [s.replace(':', '-')]: the first colon only. *)
Fixpoint replaceColon (s : string) : string :=
  match s with
  | EmptyString => EmptyString
  | String c r => if Ascii.eqb c ":" then String "-" r else String c (replaceColon r)
  end.

Definition symbolId (iconId : string) : string := "icon-" ++ replaceColon iconId.

(** The double quote of the markup. *)
Definition quote : string := String (ascii_of_nat 34) EmptyString.

(** The line feed of the markup. *)
Definition newline : string := String (ascii_of_nat 10) EmptyString.

Section Collector.

(** The icon sets installed: [iconsets name] is the parsed JSON file of
    the set, or [None] when the file is missing or cannot be parsed. *)
Variable iconsets : string -> option IconSet.

(** [fetchIcon]: [None] is [null]. *)
Definition fetchIcon (iconId : string) : option IconData :=
  match split ":" iconId with
  | iconset :: iconname :: _ =>
      if String.eqb iconset "" || String.eqb iconname "" then None
      else match iconsets iconset with
           | None => None
           | Some iconsetData =>
               match setIcons iconsetData iconname with
               | None => None
               | Some icon =>
                   let width := orNumber (iconWidth icon)
                                  (orNumber (setWidth iconsetData) 24) in
                   let height := orNumber (iconHeight icon)
                                   (orNumber (setHeight iconsetData) 24) in
                   Some {| body := iconBody icon;
                           viewBox := "0 0 " ++ numberText width ++ " "
                                      ++ numberText height;
                           width := width;
                           height := height |}
               end
           end
  | _ => None
  end.

(** The map [icons] of the collector: its entries in insertion order. *)
Definition Icons := list (string * option IconData).

Definition has (icons : Icons) (iconId : string) : bool :=
  existsb (fun e => String.eqb (fst e) iconId) icons.

(** [register]. *)
Definition register (icons : Icons) (iconId : string) : Icons :=
  if has icons iconId then icons
  else (icons ++ [(iconId, fetchIcon iconId)])%list.

(** [reset]. *)
Definition reset (icons : Icons) : Icons := [].

Definition symbolOf (entry : string * option IconData) : list string :=
  match snd entry with
  | None => []
  | Some iconData =>
      ["    <symbol id=" ++ quote ++ symbolId (fst entry) ++ quote
       ++ " viewBox=" ++ quote ++ viewBox iconData ++ quote ++ ">"
       ++ body iconData ++ "</symbol>"]
  end.

(** [generateSymbols]. *)
Definition generateSymbols (icons : Icons) : string :=
  match icons with
  | [] => "<!-- No icons registered -->"
  | _ =>
      match flat_map symbolOf icons with
      | [] => "<!-- No valid icons found -->"
      | symbols =>
          "<svg class=" ++ quote ++ "hidden" ++ quote
          ++ " aria-hidden=" ++ quote ++ "true" ++ quote
          ++ " style=" ++ quote ++ "display:none" ++ quote ++ ">" ++ newline
          ++ "  <defs>" ++ newline
          ++ String.concat newline symbols ++ newline
          ++ "  </defs>" ++ newline ++ "</svg>"
      end
  end.

(** [s.split(/\s+/)]: the pieces between the runs of white space. *)
Fixpoint splitSpaces (inRun : bool) (s : string) : list string :=
  match s with
  | EmptyString => [EmptyString]
  | String c r =>
      if isWhiteSpace c then
        if inRun then splitSpaces true r else EmptyString :: splitSpaces true r
      else match splitSpaces false r with
           | p :: ps => String c p :: ps
           | [] => [String c EmptyString]
           end
  end.

(** The object [sizeMap], on a name of [sizeClasses]. *)
Definition sizeClass (part : string) : string :=
  if String.eqb part "sm" then "size-4"
  else if String.eqb part "md" then "size-6"
  else if String.eqb part "lg" then "size-8"
  else if String.eqb part "xl" then "size-12"
  else part.

(** The identifier the shortcode works with. *)
Definition expandId (iconId : string) : string :=
  if includesColon iconId then iconId else "lucide:" ++ iconId.

(** The shortcode [icon]: the collector after the call and the markup. *)
Definition iconShortcode (icons : Icons) (iconId className : string)
  : Icons * string :=
  let iconId := expandId iconId in
  let classes :=
    "shrink-0" ::
    (if String.eqb className "" then ["size-[1em]"]
     else map sizeClass (splitSpaces false (trim className))) in
  (register icons iconId,
   "<svg class=" ++ quote ++ String.concat " " classes ++ quote
   ++ " aria-hidden=" ++ quote ++ "true" ++ quote ++ "><use xlink:href="
   ++ quote ++ "#" ++ symbolId iconId ++ quote ++ "></use></svg>").

(** The collector after the shortcodes of a build, from its reset. *)
Definition registerAll (iconIds : list string) : Icons :=
  fold_left register iconIds [].

End Collector.

End Eleventy.

(** ** Vocabulary of the statements *)

Module Spec.
Import JS Sermons.

(** No variant of the table matches the text, once trimmed and put in
    lower case. *)
Definition matchesNoAlias (s : string) : bool :=
  forallb (fun e => negb (matchesVariant (toLowerCase (trim s)) (fst e)))
          bookNormalization.

(** An input that is not a string, or the empty string. *)
Definition emptyOrNotString (v : value) : bool :=
  match v with
  | VStr s => String.eqb s ""
  | _ => true
  end.

(** The variant [w] cannot match a text that is [l], or [l] followed by
    a blank and more. *)
Definition clearOf (w l : string) : bool :=
  negb (startsWith (l ++ " ") (w ++ " ")) && negb (startsWith w (l ++ " ")).

(** Reading the entries in order, the lower case of [c] is met before
    any variant that could match a text starting with it, and it stands
    for [c]. *)
Fixpoint canonicalFirst (entries : list (string * string)) (c : string) : bool :=
  match entries with
  | [] => false
  | (w, c') :: rest =>
      if String.eqb w (toLowerCase c) then String.eqb c' c
      else clearOf w (toLowerCase c) && canonicalFirst rest c
  end.

(** Not empty, and no white space at either end. *)
Definition trimmedName (c : string) : bool :=
  match c with
  | String c0 _ => negb (isWhiteSpace c0) && String.eqb (trimEnd c) c
  | EmptyString => false
  end.

(** A string of decimal digits, possibly empty. *)
Fixpoint digits (s : string) : bool :=
  match s with
  | EmptyString => true
  | String c r => isDigit c && digits r
  end.

(** What the normaliser appends to the canonical name. *)
Definition suffixOf (remainder : string) : string :=
  if String.eqb remainder "" then "" else " " ++ remainder.


(** A feed item without any field, and items that only have a content
    or only a description. *)
Definition emptyItem : Item :=
  {| itemTitle := None; itemSpeaker := None; itemSubtitle := None;
     itemDuration := None; itemContent := None; itemDescription := None;
     itemPubDate := None; itemEnclosureUrl := None; itemLink := None;
     itemGuid := None |}.

Definition withContent (c : string) : Item :=
  {| itemTitle := None; itemSpeaker := None; itemSubtitle := None;
     itemDuration := None; itemContent := Some c; itemDescription := None;
     itemPubDate := None; itemEnclosureUrl := None; itemLink := None;
     itemGuid := None |}.

Definition withDescription (c : field) (d : string) : Item :=
  {| itemTitle := None; itemSpeaker := None; itemSubtitle := None;
     itemDuration := None; itemContent := c; itemDescription := Some d;
     itemPubDate := None; itemEnclosureUrl := None; itemLink := None;
     itemGuid := None |}.

(** A host on which no publication date can be read: the date sort
    leaves the entries in feed order. *)
Definition noDate (f : field) : option Z := None.

(** A feed whose books are, in order, 2 John, 1 John, 3 John, Acts. *)
Definition johnAndActs : list Item :=
  map withContent ["2 John 1:4"; "1 John 4:7"; "3 John 1:2"; "Acts 2:42"].

(** A feed with two letters of John and a book of Kings. *)
Definition johnAndKings : list Item :=
  map withContent ["1 John 4:7"; "2 John 1:4"; "1 Kings 3:9"].


(** A weekly rule that started at time zero, an event of one hour on
    it, and a build three days later. *)
Definition weekly : Calendar.Interval :=
  {| Calendar.first := 0; Calendar.every := Calendar.WEEK; Calendar.count := 10 |}.

Definition HOUR : Z := 60 * 60 * 1000.
Definition DAY : Z := 24 * HOUR.

Definition weeklyService : Calendar.Event Calendar.Interval :=
  {| Calendar.type := "VEVENT";
     Calendar.summary := Some "Morning Worship";
     Calendar.start := Some 0;
     Calendar.end_ := Some HOUR;
     Calendar.location := None;
     Calendar.description := None;
     Calendar.datetype := Some "date-time";
     Calendar.rrule := Some weekly |}.

(** An [img] element given by its attributes. *)
Definition element (attrs : list (string * string)) (name : string)
  : option string :=
  option_map snd (find (fun kv => String.eqb (fst kv) name) attrs).

(** Whether the loop replaced the image. *)
Definition transformed {Metadata : Type} (o : Images.Outcome Metadata) : bool :=
  match o with
  | Images.Transformed _ => true
  | _ => false
  end.

(** A disk where a picture exists in the source tree only. *)
Definition sourceOnly : Images.Disk :=
  fun p => if String.eqb p "src/assets/img/church.jpg" then Some "JFIF" else None.

(** A disk with a page and the picture it shows, and an encoder that
    succeeds on every file. *)
Definition siteWithPhoto : Images.Disk :=
  fun p => if String.eqb p "_site/photo.jpg" then Some "JFIF"
           else if String.eqb p "_site/index.html" then Some "<img>"
           else None.

Definition encodes (path : string) : option unit := Some tt.


(** A stand-in for cheerio on a page whose only image is a logo: the
    document is its text, and a replacement is appended to it. *)
Definition logoOnly (doc : string) : list (string -> option string) :=
  [element [("src", "/assets/img/logo.png"); ("alt", "Logo")]].

Definition appendMarkup (doc : string) (i : nat) (markup : string) : string :=
  doc ++ markup.

Definition pictureMarkup (metadata : unit) (img : string -> option string) : string :=
  "<picture></picture>".

Definition freshSite : Images.World :=
  {| Images.disk := siteWithPhoto; Images.written := [] |}.


(** Two variants that can match one text: they are equal, or one is the
    other followed by a blank and more. *)
Definition overlap (w a : string) : bool :=
  String.eqb w a || startsWith a (w ++ " ") || startsWith w (a ++ " ").

(** Variants that can match one text stand for one book. *)
Definition aliasesAgree (entries : list (string * string)) : bool :=
  forallb (fun e1 =>
    forallb (fun e2 =>
      implb (overlap (fst e1) (fst e2)) (String.eqb (snd e1) (snd e2)))
      entries) entries.

(** The three items of the pattern of [extractBook]: an optional digit,
    an optional white space, letters. *)
Definition digitPart (s : string) : string * string :=
  match s with
  | String c r => if isDigit c then (String c "", r) else ("", s)
  | EmptyString => ("", s)
  end.

Definition blankPart (s : string) : string * string :=
  match s with
  | String c r => if isWhiteSpace c then (String c "", r) else ("", s)
  | EmptyString => ("", s)
  end.

Definition lettersPart (s : string) : string := fst (span isAlpha s).

(** Every character of the string passes the test. *)
Fixpoint allChars (p : ascii -> bool) (s : string) : bool :=
  match s with
  | EmptyString => true
  | String c r => p c && allChars p r
  end.

(** The text is empty or starts with a character that is no letter. *)
Definition startsOffLetters (x : string) : bool :=
  match x with
  | EmptyString => true
  | String c _ => negb (isAlpha c)
  end.

(** A feed item that has neither a guid nor a link. *)
Definition unidentified (item : Item) : bool :=
  String.eqb (orElse (orField (itemGuid item) (itemLink item)) "") "".

(** The time of the entry is known, and the entry [a] is not older
    than [b]. *)
Definition dated (dateValue : field -> option Z) (s : Sermon) : Prop :=
  dateValue (date s) <> None.

Definition notOlder (dateValue : field -> option Z) (a b : Sermon) : Prop :=
  forall ta tb, dateValue (date a) = Some ta -> dateValue (date b) = Some tb ->
                tb <= ta.

(** The order of the code units, as a relation. *)
Definition codeLe (a b : string) : Prop := String.compare a b <> Gt.

(** A host that reads a publication date written as an integer. *)
Definition numericDate (f : field) : option Z :=
  match f with
  | Some s => if digits s && negb (String.eqb s "") then Some (digitsValue s) else None
  | None => None
  end.

Definition publishedAt (t speaker : string) : Item :=
  {| itemTitle := None; itemSpeaker := Some speaker; itemSubtitle := None;
     itemDuration := None; itemContent := None; itemDescription := None;
     itemPubDate := Some t; itemEnclosureUrl := None; itemLink := None;
     itemGuid := None |}.


(** The time is in the window of seven days that starts at the build. *)
Definition inWindow (now t : Z) : Prop := now <= t <= now + Calendar.WEEK.

(** The starts of two events are in order. *)
Definition startsBefore (a b : Calendar.CalendarEvent) : Prop :=
  Calendar.evStart a <= Calendar.evStart b.

(** A rule whose expansion throws, and entries of a feed. *)
Definition brokenRule (r : Calendar.Interval) (after before : Z) (inc : bool)
  : option (list Z) := None.

Definition singleAt (t : Z) : Calendar.Event Calendar.Interval :=
  {| Calendar.type := "VEVENT";
     Calendar.summary := Some "Congregational Meeting";
     Calendar.start := Some t;
     Calendar.end_ := Some (t + HOUR);
     Calendar.location := None;
     Calendar.description := None;
     Calendar.datetype := Some "date-time";
     Calendar.rrule := None |}.

Definition timezoneEntry : Calendar.Event Calendar.Interval :=
  {| Calendar.type := "VTIMEZONE";
     Calendar.summary := None;
     Calendar.start := None;
     Calendar.end_ := None;
     Calendar.location := None;
     Calendar.description := None;
     Calendar.datetype := None;
     Calendar.rrule := None |}.


(** The element has a source that is not empty. *)
Definition hasSource (img : string -> option string) : bool :=
  match img "src" with
  | Some src => negb (String.eqb src "")
  | None => false
  end.


(** The characters of a slug: lower case letters, digits, the
    underscore and the dash. *)
Definition slugChar (c : ascii) : bool :=
  isLower c || isDigit c || Ascii.eqb c "_" || Eleventy.isDash c.

(** No two dashes follow each other. *)
Fixpoint noDoubleDash (s : string) : bool :=
  match s with
  | String a (String b _ as r) =>
      negb (Eleventy.isDash a && Eleventy.isDash b) && noDoubleDash r
  | _ => true
  end.

Definition headDash (s : string) : bool :=
  match s with
  | String c _ => Eleventy.isDash c
  | EmptyString => false
  end.

(** An icon set for the examples: one icon, of the width of the set. *)
Definition homeIcon : Eleventy.Icon :=
  {| Eleventy.iconBody := "<path/>";
     Eleventy.iconWidth := None;
     Eleventy.iconHeight := Some 0 |}.

Definition lucideOnly (name : string) : option Eleventy.IconSet :=
  if String.eqb name "lucide" then
    Some {| Eleventy.setIcons :=
              fun icon => if String.eqb icon "home" then Some homeIcon else None;
            Eleventy.setWidth := Some 16;
            Eleventy.setHeight := None |}
  else None.

End Spec.

(* ================================================================== *)
(** * Part II: properties *)
(* ================================================================== *)

(** ** Strings *)

#[local] Arguments Ascii.eqb : simpl never.
#[local] Arguments String.eqb : simpl never.
#[local] Arguments JS.isWhiteSpace : simpl never.
#[local] Arguments JS.isDigit : simpl never.
#[local] Arguments JS.lowerChar : simpl never.

Section StringFacts.
Import JS.

Lemma append_empty_r (s : string) : s ++ "" = s.
Proof. induction s as [|c s IH]; simpl; [reflexivity | now rewrite IH]. Qed.

Lemma append_assoc (a b c : string) : (a ++ b) ++ c = a ++ (b ++ c).
Proof. induction a as [|x a IH]; simpl; [reflexivity | now rewrite IH]. Qed.

Lemma toLowerCase_append (a b : string) :
  toLowerCase (a ++ b) = toLowerCase a ++ toLowerCase b.
Proof. induction a as [|x a IH]; simpl; [reflexivity | now rewrite IH]. Qed.

Lemma toLowerCase_length (s : string) :
  String.length (toLowerCase s) = String.length s.
Proof. induction s as [|c s IH]; simpl; [reflexivity | now rewrite IH]. Qed.

Lemma slice_append (a b : string) : slice (a ++ b) (String.length a) = b.
Proof.
  induction a as [|x a IH]; simpl.
  - now destruct b.
  - exact IH.
Qed.

Lemma startsWith_nil (s : string) : startsWith s "" = true.
Proof. now destruct s. Qed.

Lemma startsWith_refl (s : string) : startsWith s s = true.
Proof.
  induction s as [|c s IH]; simpl; [reflexivity |].
  now rewrite Ascii.eqb_refl.
Qed.

Lemma startsWith_append (p s : string) : startsWith (p ++ s) p = true.
Proof.
  induction p as [|c p IH]; simpl; [apply startsWith_nil |].
  now rewrite Ascii.eqb_refl.
Qed.

Lemma startsWith_append_l (s p x : string) :
  startsWith s p = true -> startsWith (s ++ x) p = true.
Proof.
  revert s; induction p as [|c p IH]; intros s; [intros _; apply startsWith_nil |].
  destruct s as [|d s]; simpl; [discriminate |].
  intros H; apply andb_true_iff in H as [H1 H2].
  now rewrite H1, IH.
Qed.

(** Two prefixes of one string: one is a prefix of the other. *)
Lemma startsWith_comparable (t p q : string) :
  startsWith t p = true -> startsWith t q = true ->
  startsWith p q = true \/ startsWith q p = true.
Proof.
  revert p q; induction t as [|c t IH]; intros [|a p] [|b q] Hp Hq;
    try (left; apply startsWith_nil); try (right; apply startsWith_nil);
    simpl in *; try discriminate.
  apply andb_true_iff in Hp as [Hp1 Hp2].
  apply andb_true_iff in Hq as [Hq1 Hq2].
  apply Ascii.eqb_eq in Hp1, Hq1; subst.
  rewrite Ascii.eqb_refl; simpl.
  now apply IH.
Qed.

(** A prefix with a blank at its end: dropping the blank. *)
Lemma startsWith_blank (w l : string) :
  startsWith (w ++ " ") (l ++ " ") = true ->
  w = l \/ startsWith w (l ++ " ") = true.
Proof.
  revert w; induction l as [|c l IH]; intros [|d w]; simpl; auto.
  - intros H. apply andb_true_iff in H as [H _]. right.
    now rewrite H, startsWith_nil.
  - intros H. apply andb_true_iff in H as [_ H]. now destruct l.
  - intros H. apply andb_true_iff in H as [H1 H2].
    apply Ascii.eqb_eq in H1; subst d.
    destruct (IH _ H2) as [-> | H3]; [now left | right].
    now rewrite Ascii.eqb_refl.
Qed.

Lemma trimStart_head (c : ascii) (s : string) :
  isWhiteSpace c = false -> trimStart (String c s) = String c s.
Proof. intros H; simpl; now rewrite H. Qed.

Lemma trimStart_idem (s : string) : trimStart (trimStart s) = trimStart s.
Proof.
  induction s as [|c s IH]; simpl; [reflexivity |].
  destruct (isWhiteSpace c) eqn:E; [exact IH |].
  simpl; now rewrite E.
Qed.

Lemma trimEnd_idem (s : string) : trimEnd (trimEnd s) = trimEnd s.
Proof.
  induction s as [|c s IH]; simpl; [reflexivity |].
  destruct (trimEnd s) as [|d t] eqn:E.
  - destruct (isWhiteSpace c) eqn:W; simpl; [reflexivity | now rewrite W].
  - simpl in *. now rewrite IH.
Qed.

(** Trimming at the end keeps a first character that is not white. *)
Lemma trimEnd_head (c : ascii) (s : string) :
  isWhiteSpace c = false -> exists t, trimEnd (String c s) = String c t.
Proof.
  intros W; simpl.
  destruct (trimEnd s); [rewrite W |]; eauto.
Qed.

Lemma trimStart_nonwhite (s : string) (c : ascii) (t : string) :
  trimStart s = String c t -> isWhiteSpace c = false.
Proof.
  induction s as [|d s IH]; simpl; [discriminate |].
  destruct (isWhiteSpace d) eqn:D; [exact IH |].
  intros E; now inversion E; subst.
Qed.

Lemma trimStart_of_trim (s : string) : trimStart (trim s) = trim s.
Proof.
  unfold trim.
  destruct (trimStart s) as [|c t] eqn:E; [reflexivity |].
  pose proof (trimStart_nonwhite _ _ _ E) as W.
  destruct (trimEnd_head c t W) as [u ->].
  now apply trimStart_head.
Qed.

Lemma trimEnd_of_trim (s : string) : trimEnd (trim s) = trim s.
Proof. unfold trim; apply trimEnd_idem. Qed.

Lemma trim_idem (s : string) : trim (trim s) = trim s.
Proof.
  unfold trim at 1. rewrite trimStart_of_trim. apply trimEnd_of_trim.
Qed.

Lemma trimEnd_append (a b : string) :
  trimEnd b <> "" -> trimEnd (a ++ b) = a ++ trimEnd b.
Proof.
  intros H; induction a as [|c a IH]; simpl; [reflexivity |].
  rewrite IH.
  destruct (a ++ trimEnd b) eqn:E; [| reflexivity].
  destruct a; simpl in E; [contradiction | discriminate].
Qed.

End StringFacts.

(** ** The scripture normaliser *)

Section Normalizer.
Import JS Sermons Spec.

Lemma normalizeWith_unmatched (entries : list (string * string)) (cleaned lower : string) :
  forallb (fun e => negb (matchesVariant lower (fst e))) entries = true ->
  normalizeWith entries cleaned lower = cleaned.
Proof.
  induction entries as [|[w c] rest IH]; simpl; [reflexivity |].
  intros H; apply andb_true_iff in H as [H1 H2].
  apply negb_true_iff in H1; rewrite H1. now apply IH.
Qed.

(** The result is the cleaned text, or a canonical name of the table
    and the trimmed remainder. *)
Lemma normalizeWith_cases (entries : list (string * string)) (cleaned lower : string) :
  normalizeWith entries cleaned lower = cleaned \/
  exists w c, In (w, c) entries /\
    normalizeWith entries cleaned lower
    = c ++ suffixOf (trim (slice cleaned (String.length w))).
Proof.
  induction entries as [|[w c] rest IH]; simpl; [now left |].
  destruct (matchesVariant lower w).
  - right; exists w, c; split; [now left | reflexivity].
  - destruct IH as [IH | (w' & c' & Hin & IH)]; [now left |].
    right; exists w', c'; split; [now right | exact IH].
Qed.

Lemma clearOf_no_match (w l x : string) :
  clearOf w l = true ->
  x = "" \/ (exists y, x = " " ++ y) ->
  matchesVariant (l ++ x) w = false.
Proof.
  unfold clearOf, matchesVariant; intros H Hx.
  apply andb_true_iff in H as [H1 H2].
  apply negb_true_iff in H1, H2.
  apply orb_false_iff; split.
  - destruct (startsWith (l ++ x) (w ++ " ")) eqn:E; [exfalso | reflexivity].
    destruct Hx as [-> | [y ->]].
    + rewrite append_empty_r in E.
      apply (startsWith_append_l _ _ " ") in E. congruence.
    + assert (P : startsWith (l ++ " " ++ y) (l ++ " ") = true).
      { rewrite <- append_assoc. apply startsWith_append. }
      destruct (startsWith_comparable _ _ _ E P) as [C | C]; [| congruence].
      destruct (startsWith_blank _ _ C) as [-> | C']; [| congruence].
      rewrite startsWith_refl in H1; discriminate.
  - destruct (String.eqb (l ++ x) w) eqn:E; [exfalso | reflexivity].
    apply String.eqb_eq in E; subst w.
    destruct Hx as [-> | [y ->]].
    + rewrite append_empty_r, startsWith_refl in H1; discriminate.
    + rewrite <- append_assoc, startsWith_append in H2; discriminate.
Qed.

Lemma canonicalFirst_sound (entries : list (string * string)) (c x : string) :
  canonicalFirst entries c = true ->
  x = "" \/ (exists y, x = " " ++ y) ->
  normalizeWith entries (c ++ x) (toLowerCase (c ++ x)) = c ++ suffixOf (trim x).
Proof.
  intros H Hx.
  assert (Hlx : toLowerCase x = "" \/ exists y, toLowerCase x = " " ++ y).
  { destruct Hx as [-> | [y ->]]; [now left | right].
    exists (toLowerCase y); reflexivity. }
  rewrite toLowerCase_append.
  induction entries as [|[w c'] rest IH]; simpl in *; [discriminate |].
  destruct (String.eqb w (toLowerCase c)) eqn:E.
  - apply String.eqb_eq in E; subst w.
    apply String.eqb_eq in H; subst c'.
    assert (M : matchesVariant (toLowerCase c ++ toLowerCase x) (toLowerCase c) = true).
    { unfold matchesVariant. apply orb_true_iff.
      destruct Hlx as [-> | [y ->]].
      - right. rewrite append_empty_r. apply String.eqb_refl.
      - left. change (String " "%char y) with (" " ++ y).
        rewrite <- append_assoc. apply startsWith_append. }
    rewrite M, toLowerCase_length, slice_append. reflexivity.
  - apply andb_true_iff in H as [H1 H2].
    rewrite (clearOf_no_match _ _ _ H1 Hlx). now apply IH.
Qed.

(** The table is laid out so that each canonical name is found again. *)
Lemma table_canonical :
  forallb (fun e => canonicalFirst bookNormalization (snd e) && trimmedName (snd e))
          bookNormalization = true.
Proof. vm_compute. reflexivity. Qed.

(** The keys of the object literal are distinct. *)
Lemma table_keys_distinct : NoDup (map fst bookNormalization).
Proof.
  assert (D : forall l : list string,
             (fix distinct (l : list string) : bool :=
                match l with
                | [] => true
                | x :: r => negb (existsb (String.eqb x) r) && distinct r
                end) l = true -> NoDup l).
  { induction l as [|x r IH]; intros H; constructor.
    - apply andb_true_iff in H as [H _]. apply negb_true_iff in H.
      intros Hin. assert (E : existsb (String.eqb x) r = true).
      { apply existsb_exists. exists x; split; [exact Hin | apply String.eqb_refl]. }
      congruence.
    - apply andb_true_iff in H as [_ H]. now apply IH. }
  apply D. vm_compute. reflexivity.
Qed.

(** A canonical name followed by a trimmed remainder is a fixed point
    of the trimming. *)
Lemma trim_canonical (c r : string) :
  trimmedName c = true -> trim (c ++ suffixOf (trim r)) = c ++ suffixOf (trim r).
Proof.
  unfold trimmedName; destruct c as [|c0 c]; [discriminate |].
  intros H; apply andb_true_iff in H as [W T].
  apply negb_true_iff in W. apply String.eqb_eq in T.
  unfold trim at 1. change (String c0 c ++ suffixOf (trim r))
    with (String c0 (c ++ suffixOf (trim r))).
  rewrite (trimStart_head _ _ W).
  change (String c0 (c ++ suffixOf (trim r)))
    with (String c0 c ++ suffixOf (trim r)).
  unfold suffixOf. destruct (String.eqb (trim r) "") eqn:E.
  - now rewrite append_empty_r.
  - apply String.eqb_neq in E.
    change (" " ++ trim r) with (" " ++ trim r).
    rewrite <- (append_assoc (String c0 c) " " (trim r)).
    rewrite trimEnd_append; rewrite trimEnd_of_trim; [reflexivity | exact E].
Qed.

Lemma trim_suffixOf (r : string) : trim (suffixOf (trim r)) = trim r.
Proof.
  unfold suffixOf. destruct (String.eqb (trim r) "") eqn:E.
  - apply String.eqb_eq in E. now rewrite E.
  - change (trim (" " ++ trim r)) with (trim (trim r)). apply trim_idem.
Qed.

Lemma suffixOf_shape (r : string) :
  suffixOf r = "" \/ exists y, suffixOf r = " " ++ y.
Proof.
  unfold suffixOf; destruct (String.eqb r ""); [now left | right; now exists r].
Qed.

Lemma normalizeScripture_VStr (s : string) :
  normalizeScripture (VStr s)
  = if String.eqb s "" then ""
    else normalizeWith bookNormalization (trim s) (toLowerCase (trim s)).
Proof. reflexivity. Qed.

(** A canonical name of the table followed by a trimmed remainder is
    normalised to itself. *)
Lemma normalize_canonical (w c r : string) :
  In (w, c) bookNormalization ->
  normalizeScripture (VStr (c ++ suffixOf (trim r))) = c ++ suffixOf (trim r).
Proof.
  intros Hin.
  pose proof table_canonical as T.
  rewrite forallb_forall in T. specialize (T _ Hin); cbn [snd] in T.
  apply andb_true_iff in T as [T1 T2].
  rewrite normalizeScripture_VStr.
  destruct (String.eqb (c ++ suffixOf (trim r)) "") eqn:E.
  - apply String.eqb_eq in E. now rewrite E.
  - rewrite (trim_canonical _ _ T2).
    rewrite (canonicalFirst_sound _ _ _ T1 (suffixOf_shape _)).
    now rewrite trim_suffixOf.
Qed.

End Normalizer.

Section NormalizerClaims.
Import JS Sermons Spec.

(** C5, as it is stated, fails: a text that matches no alias and has
    white space around it is not returned unchanged, it is returned
    trimmed. *)
Lemma normalize_unmatched_is_trimmed_not_unchanged :
  matchesNoAlias "  Sermon on the Mount " = true /\
  normalizeScripture (VStr "  Sermon on the Mount ") = "Sermon on the Mount" /\
  normalizeScripture (VStr "  Sermon on the Mount ") <> "  Sermon on the Mount ".
Proof.
  split; [vm_compute; reflexivity |].
  split; [vm_compute; reflexivity | vm_compute; discriminate].
Qed.

(** C5, amended: for every string that matches no known alias the
    normaliser returns the string with the white space at both ends
    removed; for every input that is empty or is not a string it returns
    the empty string. *)
Theorem normalize_unmatched_trimmed (s : string) (v : value) :
  (matchesNoAlias s = true -> normalizeScripture (VStr s) = trim s) /\
  (emptyOrNotString v = true -> normalizeScripture v = "").
Proof.
  split.
  - intros H. rewrite normalizeScripture_VStr.
    destruct (String.eqb s "") eqn:E.
    + apply String.eqb_eq in E; now subst.
    + now apply normalizeWith_unmatched.
  - destruct v; simpl; try reflexivity.
    intros H; now rewrite H.
Qed.

Lemma normalize_unmatched_trimmed_witness :
  normalizeScripture (VStr "  Sermon on the Mount ") = trim "  Sermon on the Mount "
  /\ normalizeScripture VNull = "".
Proof.
  split.
  - apply (proj1 (normalize_unmatched_trimmed "  Sermon on the Mount " VNull)).
    vm_compute; reflexivity.
  - apply (proj2 (normalize_unmatched_trimmed "  Sermon on the Mount " VNull)).
    reflexivity.
Defined.

(** C6: for every alias [a] of the table, with canonical name [c], the
    text [a] followed by " 3:16" is normalised to [c] followed by
    " 3:16"; and normalising the result of a normalisation gives it
    back, for every input. *)
Theorem normalize_alias_and_idempotent (a c : string) (v : value) :
  (In (a, c) bookNormalization ->
   normalizeScripture (VStr (a ++ " 3:16")) = c ++ " 3:16") /\
  normalizeScripture (VStr (normalizeScripture v)) = normalizeScripture v.
Proof.
  split.
  - assert (T : forallb (fun e => String.eqb
                   (normalizeScripture (VStr (fst e ++ " 3:16")))
                   (snd e ++ " 3:16")) bookNormalization = true)
      by (vm_compute; reflexivity).
    rewrite forallb_forall in T.
    intros Hin. specialize (T _ Hin). now apply String.eqb_eq in T.
  - destruct v as [ | | b | n | s | ]; try reflexivity.
    rewrite (normalizeScripture_VStr s).
    destruct (String.eqb s "") eqn:E; [reflexivity |].
    destruct (normalizeWith_cases bookNormalization (trim s) (toLowerCase (trim s)))
      as [H | (w & c' & Hin & H)]; rewrite H.
    + rewrite normalizeScripture_VStr, trim_idem, H.
      destruct (String.eqb (trim s) "") eqn:E'; [| reflexivity].
      apply String.eqb_eq in E'; now rewrite E'.
    + now apply (normalize_canonical w).
Qed.

Lemma normalize_alias_and_idempotent_witness :
  normalizeScripture (VStr ("ps" ++ " 3:16")) = "Psalms" ++ " 3:16" /\
  normalizeScripture (VStr (normalizeScripture (VStr " song of songs  2:1 ")))
  = normalizeScripture (VStr " song of songs  2:1 ").
Proof.
  split.
  - apply (proj1 (normalize_alias_and_idempotent "ps" "Psalms" VNull)).
    vm_compute. tauto.
  - apply (proj2 (normalize_alias_and_idempotent "ps" "Psalms"
                    (VStr " song of songs  2:1 "))).
Defined.

End NormalizerClaims.

(** ** Durations *)

Section Durations.
Import JS Sermons Spec Num.

Lemma Qred_inject_Z (z : Z) : Qred (inject_Z z) = inject_Z z.
Proof.
  unfold Qred, inject_Z.
  pose proof (Z.ggcd_gcd z 1) as G.
  pose proof (Z.ggcd_correct_divisors z 1) as D.
  destruct (Z.ggcd z 1) as (g, (a, b)); simpl in *.
  rewrite Z.gcd_1_r in G; subst g.
  destruct D as [D1 D2].
  rewrite Z.mul_1_l in D1, D2; subst a b. reflexivity.
Qed.

Lemma fin_inject_Z (z : Z) : fin (inject_Z z) = ofZ z.
Proof. unfold fin, ofZ. now rewrite Qred_inject_Z. Qed.

Lemma add_ofZ (a b : Z) : add (ofZ a) (ofZ b) = ofZ (a + b).
Proof.
  transitivity (fin (inject_Z (a + b))); [| apply fin_inject_Z].
  unfold add, ofZ, fin. f_equal.
  now rewrite inject_Z_plus.
Qed.

Lemma mul_ofZ (a b : Z) : mul (ofZ a) (ofZ b) = ofZ (a * b).
Proof.
  transitivity (fin (inject_Z (a * b))); [| apply fin_inject_Z].
  reflexivity.
Qed.

Lemma mul_NaN_l (n : number) : mul NaN n = NaN.
Proof. reflexivity. Qed.

Lemma add_NaN_l (n : number) : add NaN n = NaN.
Proof. reflexivity. Qed.

Lemma add_NaN_r (n : number) : add n NaN = NaN.
Proof. now destruct n. Qed.

(** A digit is neither white space, nor a colon, nor a sign, nor the
    first letter of [Infinity], nor the mark of a radix. *)
Lemma isDigit_plain (c : ascii) :
  isDigit c = true ->
  isWhiteSpace c = false /\ Ascii.eqb c ":" = false /\
  c <> "+"%char /\ c <> "-"%char /\ c <> "I"%char /\
  Ascii.eqb c "x" = false /\ Ascii.eqb c "X" = false /\
  Ascii.eqb c "o" = false /\ Ascii.eqb c "O" = false /\
  Ascii.eqb c "b" = false /\ Ascii.eqb c "B" = false.
Proof.
  destruct c as [[] [] [] [] [] [] [] []]; vm_compute; intros H;
    try discriminate H; repeat split; discriminate.
Qed.

Lemma digits_trim (d : string) : digits d = true -> trim d = d.
Proof.
  intros H. unfold trim.
  assert (S : trimStart d = d).
  { destruct d as [|c r]; [reflexivity |]. simpl in H.
    apply andb_true_iff in H as [H _].
    apply trimStart_head. now apply isDigit_plain. }
  rewrite S. clear S.
  induction d as [|c r IH]; [reflexivity |].
  simpl in H; apply andb_true_iff in H as [Hc Hr].
  simpl. rewrite (IH Hr).
  destruct (isDigit_plain c Hc) as [W _]. rewrite W. now destruct r.
Qed.

Lemma digits_span (d : string) : digits d = true -> span isDigit d = (d, "").
Proof.
  induction d as [|c r IH]; [reflexivity |].
  simpl; intros H; apply andb_true_iff in H as [Hc Hr].
  now rewrite Hc, (IH Hr).
Qed.

Lemma digits_split (d r : string) :
  digits d = true -> split ":" (d ++ String ":" r) = d :: split ":" r.
Proof.
  induction d as [|c d IH]; [reflexivity |].
  simpl; intros H; apply andb_true_iff in H as [Hc Hd].
  destruct (isDigit_plain c Hc) as (_ & C & _). rewrite C.
  now rewrite (IH Hd).
Qed.

Lemma digits_split_last (d : string) : digits d = true -> split ":" d = [d].
Proof.
  induction d as [|c d IH]; [reflexivity |].
  simpl; intros H; apply andb_true_iff in H as [Hc Hd].
  destruct (isDigit_plain c Hc) as (_ & C & _). rewrite C.
  now rewrite (IH Hd).
Qed.

(** [Number] reads a string of digits as the integer it writes. *)
Lemma Number_digits (d : string) :
  digits d = true -> Number d = ofZ (digitsValue d).
Proof.
  intros H. unfold Number. rewrite (digits_trim d H).
  destruct d as [|c r]; [reflexivity |].
  change (String.eqb (String c r) "") with false; cbv iota.
  pose proof H as H'. simpl in H'. apply andb_true_iff in H' as [Hc Hr].
  destruct (isDigit_plain c Hc) as (_ & _ & P & M & I & _).
  assert (ND : nonDecimalLiteral (String c r) = None).
  { unfold nonDecimalLiteral.
    destruct c as [[] [] [] [] [] [] [] []]; try reflexivity.
    destruct r as [|p r']; [reflexivity |].
    simpl in Hr. apply andb_true_iff in Hr as [Hp _].
    destruct (isDigit_plain p Hp) as (_ & _ & _ & _ & _ & X1 & X2 & O1 & O2 & B1 & B2).
    now rewrite X1, X2, O1, O2, B1, B2. }
  rewrite ND.
  assert (SS : stripSign (String c r) = (false, String c r)).
  { unfold stripSign.
    destruct c as [[] [] [] [] [] [] [] []]; try reflexivity; congruence. }
  rewrite SS. unfold unsignedDecimalLiteral.
  assert (NI : String.eqb (String c r) "Infinity" = false).
  { apply String.eqb_neq. intros E. inversion E. congruence. }
  rewrite NI, (digits_span _ H).
  change (String.eqb (String c r) "" && String.eqb "" "")%bool with false.
  cbv iota. unfold exponentPart.
  rewrite append_empty_r.
  change (Qpower 10 (0 - Z.of_nat (String.length ""))) with 1%Q.
  transitivity (fin (inject_Z (digitsValue (String c r)))); [| apply fin_inject_Z].
  unfold fin. f_equal.
  apply Qred_complete. apply Qmult_1_r.
Qed.

Lemma parseDuration_three (h m sec : string) :
  digits h = true -> digits m = true -> digits sec = true ->
  parseDuration (Some (h ++ ":" ++ m ++ ":" ++ sec))
  = ofZ (digitsValue h * 3600 + digitsValue m * 60 + digitsValue sec).
Proof.
  intros Hh Hm Hs. unfold parseDuration.
  assert (E : String.eqb (h ++ ":" ++ m ++ ":" ++ sec) "" = false)
    by (apply String.eqb_neq; destruct h; discriminate).
  rewrite E.
  change (h ++ ":" ++ m ++ ":" ++ sec)
    with (h ++ String ":" (m ++ String ":" sec)).
  rewrite (digits_split _ _ Hh), (digits_split _ _ Hm), (digits_split_last _ Hs).
  cbn [map].
  rewrite !Number_digits by assumption.
  now rewrite !mul_ofZ, !add_ofZ.
Qed.

Lemma parseDuration_two (m sec : string) :
  digits m = true -> digits sec = true ->
  parseDuration (Some (m ++ ":" ++ sec))
  = ofZ (digitsValue m * 60 + digitsValue sec).
Proof.
  intros Hm Hs. unfold parseDuration.
  assert (E : String.eqb (m ++ ":" ++ sec) "" = false)
    by (apply String.eqb_neq; destruct m; discriminate).
  rewrite E.
  change (m ++ ":" ++ sec) with (m ++ String ":" sec).
  rewrite (digits_split _ _ Hm), (digits_split_last _ Hs).
  cbn [map].
  rewrite !Number_digits by assumption.
  now rewrite !mul_ofZ, !add_ofZ.
Qed.

End Durations.

Section DurationClaims.
Import JS Sermons Spec Num.




End DurationClaims.

(** ** Arrays: sorting and sets *)

Section ArrayFacts.
Import Arr.
Context {A : Type}.
Variable cmp : A -> A -> Z.

Lemma insertBy_perm (x : A) (l : list A) : Permutation (insertBy cmp x l) (x :: l).
Proof.
  induction l as [|y r IH]; simpl; [reflexivity |].
  destruct (0 <? cmp y x); [reflexivity |].
  rewrite IH. apply perm_swap.
Qed.

Lemma fold_insertBy_perm (l acc : list A) :
  Permutation (fold_left (fun acc x => insertBy cmp x acc) l acc) (l ++ acc).
Proof.
  revert acc; induction l as [|x r IH]; intros acc; simpl; [reflexivity |].
  rewrite IH, insertBy_perm. symmetry. apply Permutation_middle.
Qed.

(** Sorting rearranges: whatever the comparator. *)
Lemma sortBy_perm (l : list A) : Permutation (sortBy cmp l) l.
Proof.
  unfold sortBy. rewrite fold_insertBy_perm. now rewrite app_nil_r.
Qed.

Lemma sortBy_In (x : A) (l : list A) : In x (sortBy cmp l) <-> In x l.
Proof.
  split; apply Permutation_in; [| symmetry]; apply sortBy_perm.
Qed.

Hypothesis cmp_opposite : forall a b, 0 < cmp a b -> cmp b a <= 0.

Lemma insertBy_sorted (x : A) (l : list A) :
  Sorted (inOrder cmp) l -> Sorted (inOrder cmp) (insertBy cmp x l).
Proof.
  induction l as [|y r IH]; intros S; simpl.
  - repeat constructor.
  - destruct (0 <? cmp y x) eqn:E.
    + apply Z.ltb_lt in E. constructor; [exact S |].
      constructor. now apply cmp_opposite.
    + apply Z.ltb_ge in E. inversion S as [|? ? S' H]; subst.
      constructor; [now apply IH |].
      destruct r as [|z r]; simpl.
      * now constructor.
      * destruct (0 <? cmp z x); constructor; [exact E |].
        now inversion H.
Qed.

Lemma fold_insertBy_sorted (l acc : list A) :
  Sorted (inOrder cmp) acc ->
  Sorted (inOrder cmp) (fold_left (fun acc x => insertBy cmp x acc) l acc).
Proof.
  revert acc; induction l as [|x r IH]; intros acc S; simpl; [exact S |].
  apply IH. now apply insertBy_sorted.
Qed.

(** With a comparator whose sign turns with its arguments, every
    element of the sorted array may stand before the next one. *)
Lemma sortBy_sorted (l : list A) : Sorted (inOrder cmp) (sortBy cmp l).
Proof. apply fold_insertBy_sorted. constructor. Qed.

End ArrayFacts.

Section SetFacts.
Import Arr.
Context {A : Type}.
Variable eqb : A -> A -> bool.
Hypothesis eqb_spec : forall a b, eqb a b = true <-> a = b.

Lemma existsb_eqb (x : A) (l : list A) : existsb (eqb x) l = true <-> In x l.
Proof.
  rewrite existsb_exists. split.
  - intros (y & Hin & E). apply eqb_spec in E. now subst.
  - intros Hin. exists x; split; [exact Hin | now apply eqb_spec].
Qed.

Lemma addNew_In (x : A) (l seen : list A) :
  In x (addNew eqb seen l) <-> In x l /\ ~ In x seen.
Proof.
  revert seen; induction l as [|y r IH]; intros seen; simpl; [tauto |].
  destruct (existsb (eqb y) seen) eqn:E.
  - apply existsb_eqb in E. rewrite IH. split.
    + intros [H1 H2]; auto.
    + intros [[-> | H1] H2]; [contradiction | auto].
  - assert (N : ~ In y seen).
    { intros Hin. apply existsb_eqb in Hin. congruence. }
    simpl. rewrite IH. simpl. split.
    + intros [-> | [H1 H2]]; [auto |]. split; [auto |]. intros H; apply H2; auto.
    + intros [[-> | H1] H2]; [auto |].
      destruct (eqb y x) eqn:Exy.
      * apply eqb_spec in Exy. auto.
      * right. split; [exact H1 |]. intros [-> | H3]; [| contradiction].
        assert (eqb x x = true) by now apply eqb_spec. congruence.
Qed.

Lemma addNew_NoDup (l seen : list A) : NoDup (addNew eqb seen l).
Proof.
  revert seen; induction l as [|y r IH]; intros seen; simpl; [constructor |].
  destruct (existsb (eqb y) seen); [apply IH |].
  constructor; [| apply IH].
  rewrite addNew_In. intros [_ H]. apply H. now left.
Qed.

Lemma setOf_In (x : A) (l : list A) : In x (setOf eqb l) <-> In x l.
Proof. unfold setOf. rewrite addNew_In. simpl. tauto. Qed.

Lemma setOf_NoDup (l : list A) : NoDup (setOf eqb l).
Proof. apply addNew_NoDup. Qed.

End SetFacts.

(** ** Sermon entries and facets *)

Section SermonFacts.
Import JS Sermons Spec Arr.

Lemma orElse_nonempty (f : field) (d : string) : d <> "" -> orElse f d <> "".
Proof.
  intros Hd. unfold orElse. destruct f as [s|]; [| exact Hd].
  destruct (String.eqb s "") eqn:E; [exact Hd |].
  now apply String.eqb_neq.
Qed.

Lemma mapIndexed_In {A B : Type} (f : nat -> A -> B) (l : list A) (i : nat) (y : B) :
  In y (mapIndexed f i l) -> exists j x, In x l /\ y = f j x.
Proof.
  revert i; induction l as [|x r IH]; intros i; simpl; [tauto |].
  intros [<- | H]; [exists i, x; auto |].
  destruct (IH _ H) as (j & x' & Hin & ->). exists j, x'; auto.
Qed.

(** Every entry of the collection was built from an item of the feed. *)
Lemma sermonsOf_In (dateValue : field -> option Z) (items : list Item) (s : Sermon) :
  In s (sermonsOf dateValue items) ->
  exists index item, In item items /\ s = buildSermon index item.
Proof.
  unfold sermonsOf. rewrite sortBy_In. apply mapIndexed_In.
Qed.

Lemma comparePrimary_opposite (a b : string) :
  comparePrimary b a = CompOpp (comparePrimary a b).
Proof.
  revert b; induction a as [|x a IH]; intros [|y b]; simpl; try reflexivity.
  rewrite (N.compare_antisym (primaryWeight x) (primaryWeight y)).
  destruct (N.compare (primaryWeight x) (primaryWeight y)); simpl; auto.
Qed.

Lemma compareCase_opposite (a b : string) :
  compareCase b a = CompOpp (compareCase a b).
Proof.
  revert b; induction a as [|x a IH]; intros [|y b]; simpl; try reflexivity.
  destruct (isUpper x), (isUpper y); simpl; auto.
Qed.

(** The sign of the model collation turns with its arguments. *)
Lemma rootCollate_opposite (a b : string) :
  0 < rootCollate a b -> rootCollate b a <= 0.
Proof.
  unfold rootCollate.
  rewrite (comparePrimary_opposite a b), (compareCase_opposite a b).
  destruct (comparePrimary a b), (compareCase a b); simpl; lia.
Qed.

Lemma compareBooks_opposite (collate : string -> string -> Z) :
  (forall a b, 0 < collate a b -> collate b a <= 0) ->
  forall a b, 0 < compareBooks collate a b -> compareBooks collate b a <= 0.
Proof.
  intros H a b. unfold compareBooks.
  destruct (leadingNumber a) as [x|], (leadingNumber b) as [y|]; try apply H.
  rewrite (String.eqb_sym (withoutNumber b) (withoutNumber a)).
  destruct (String.eqb (withoutNumber a) (withoutNumber b)); [lia | apply H].
Qed.

End SermonFacts.

Section SermonClaims.
Import JS Sermons Spec Arr.









End SermonClaims.

(** ** The calendar *)

Section CalendarClaims.
Import JS Calendar Spec.

(** The interval rules answer [between] as the library documents it:
    with [inc] set, the occurrences in the closed window. *)
Lemma intervalBetween_closed (r : Interval) (after before d : time) (dates : list time) :
  intervalBetween r after before true = Some dates ->
  (In d dates <-> In d (occurrences r) /\ after <= d <= before).
Proof.
  unfold intervalBetween. intros E; inversion E; subst dates; clear E.
  rewrite filter_In, andb_true_iff, Z.leb_le, Z.leb_le. tauto.
Qed.

(** C7: for a recurring definition with a start and an end, if the call
    to the rule returns the occurrences of the closed window from the
    build time to seven days later, as the library documents for an
    inclusive query, then the expansion materialises exactly these
    occurrences, in the order of the library, and the end of each is its
    start plus the end of the definition minus its start.  This
    expansion is what the loop over the feed does with an entry of type
    VEVENT that has a rule. *)
Theorem recurring_expansion_window_and_duration
    (RRule : Type)
    (between : RRule -> time -> time -> bool -> option (list time))
    (occurs : RRule -> time -> Prop)
    (now : time) (event : Event RRule) (rule : RRule)
    (s e : time) (dates : list time)
    (Hstart : start event = Some s)
    (Hend : end_ event = Some e)
    (Hcall : between rule now (now + WEEK) true = Some dates)
    (Hdates : forall d, In d dates <-> occurs rule d /\ now <= d <= now + WEEK) :
  map evStart (expandRecurring between now event rule) = dates /\
  (forall d, In d (map evStart (expandRecurring between now event rule)) <->
             occurs rule d /\ now <= d <= now + 7 * 24 * 60 * 60 * 1000) /\
  (forall ev, In ev (expandRecurring between now event rule) ->
              evEnd ev = Some (evStart ev + (e - s))) /\
  (type event = "VEVENT" -> rrule event = Some rule ->
   eventsOf between now event = expandRecurring between now event rule).
Proof.
  assert (Hloop : type event = "VEVENT" -> rrule event = Some rule ->
                  eventsOf between now event = expandRecurring between now event rule).
  { intros Ht Hr. unfold eventsOf. now rewrite Ht, Hr. }
  rewrite <- and_assoc, <- and_assoc. split; [rewrite and_assoc | exact Hloop].
  unfold expandRecurring. rewrite Hcall, Hend, Hstart.
  assert (M : map evStart
                (map (fun date => occurrence RRule event date (Some (date + (e - s))))
                     dates) = dates).
  { rewrite map_map. cbn [evStart occurrence]. apply map_id. }
  split; [exact M |]. split.
  - intros d. rewrite M. apply Hdates.
  - intros ev Hin. apply in_map_iff in Hin as (d & <- & _). reflexivity.
Qed.

Lemma recurring_expansion_window_and_duration_witness :
  map evStart (expandRecurring intervalBetween (3 * DAY) weeklyService weekly)
  = [WEEK] /\
  map evEnd (expandRecurring intervalBetween (3 * DAY) weeklyService weekly)
  = [Some (WEEK + HOUR)].
Proof.
  pose proof (recurring_expansion_window_and_duration
                Interval intervalBetween (fun r d => In d (occurrences r))
                (3 * DAY) weeklyService weekly 0 HOUR [WEEK]
                eq_refl eq_refl eq_refl
                (fun d => intervalBetween_closed weekly (3 * DAY)
                            (3 * DAY + WEEK) d [WEEK] eq_refl))
    as (S & _ & E & _).
  split; [exact S |].
  vm_compute. reflexivity.
Defined.

End CalendarClaims.

(** ** The image rewriter *)

Section ImagePaths.
Import JS Images Spec.

(** The test of the promise always succeeds: a path that starts with a
    slash is resolved against the output root, whatever is on disk. *)
Lemma getImagePath_rooted (disk : Disk) (src htmlFilePath : string) :
  startsWith src "/" = true ->
  getImagePath disk src htmlFilePath = Path.join [SITE_DIR; src].
Proof. intros H. unfold getImagePath. now rewrite H. Qed.

Lemma getImagePath_relative (disk : Disk) (src htmlFilePath : string) :
  startsWith src "/" = false ->
  getImagePath disk src htmlFilePath = Path.join [Path.dirname htmlFilePath; src].
Proof. intros H. unfold getImagePath. now rewrite H. Qed.

(** C3, where the code departs from it: the picture is absent from the
    output root and present in the source tree, and the path is still
    resolved against the output root; the image is then reported as not
    found and is not encoded. *)
Theorem getImagePath_never_falls_back :
  access sourceOnly (Path.join [SITE_DIR; "/assets/img/church.jpg"]) = Rejected /\
  access sourceOnly (Path.join ["src"; "/assets/img/church.jpg"]) = Fulfilled tt /\
  getImagePath sourceOnly "/assets/img/church.jpg" "_site/index.html"
  = "_site/assets/img/church.jpg" /\
  processImage encodes sourceOnly "/assets/img/church.jpg" "_site/index.html" = None.
Proof. repeat split. Qed.

End ImagePaths.

Section SkipPolicy.
Import JS Images Spec.

Variable Metadata : Type.
Variable Image : string -> option Metadata.

Lemma shouldSkipImage_pattern (src word : string) (width height : option Z) :
  In word SKIP_PATTERNS -> testCI word src = true ->
  shouldSkipImage src width height = true.
Proof.
  intros Hin H. unfold shouldSkipImage.
  assert (E : existsb (fun pattern => testCI pattern src) SKIP_PATTERNS = true).
  { apply existsb_exists. now exists word. }
  now rewrite E.
Qed.

Lemma shouldSkipImage_small (src : string) (w h : Z) :
  w <> 0 -> h <> 0 -> w < 100 \/ h < 100 ->
  shouldSkipImage src (Some w) (Some h) = true.
Proof.
  intros Hw Hh Hs. unfold shouldSkipImage.
  destruct (existsb _ SKIP_PATTERNS); [reflexivity |].
  cbn [truthyNumber below].
  apply Z.eqb_neq in Hw, Hh. rewrite Hw, Hh. cbn [negb andb].
  assert (E : (w <? 100) || (h <? 100) = true).
  { apply orb_true_iff. destruct Hs; [left | right]; now apply Z.ltb_lt. }
  now rewrite E.
Qed.

Lemma shouldSkipImage_svg (src : string) (width height : option Z) :
  endsWith src ".svg" = true -> shouldSkipImage src width height = true.
Proof.
  intros H. unfold shouldSkipImage. rewrite H.
  destruct (existsb _ SKIP_PATTERNS); [reflexivity |].
  now destruct (truthyNumber width && truthyNumber height
                && (below 100 width || below 100 height)).
Qed.

Lemma shouldSkipImage_external (src : string) (width height : option Z) :
  startsWith src "http://" = true \/ startsWith src "https://" = true ->
  shouldSkipImage src width height = true.
Proof.
  intros H. unfold shouldSkipImage.
  assert (E : startsWith src "http://" || startsWith src "https://" = true)
    by now apply orb_true_iff.
  rewrite E.
  destruct (existsb _ SKIP_PATTERNS); [reflexivity |].
  destruct (truthyNumber width && truthyNumber height
            && (below 100 width || below 100 height)); [reflexivity |].
  now destruct (endsWith src ".svg").
Qed.

Lemma outcome_skipped (disk : Disk) (filePath : string)
    (img : string -> option string) (src : string) :
  img "src" = Some src -> src <> "" ->
  shouldSkipImage src (dimension (img "width")) (dimension (img "height")) = true ->
  outcome Image disk filePath img = Skipped.
Proof.
  intros Hsrc Hne H. unfold outcome. rewrite Hsrc.
  apply String.eqb_neq in Hne. now rewrite Hne, H.
Qed.

Lemma dimension_nonzero (attr : option string) (v : Z) :
  Num.parseInt attr = Some v -> v <> 0 -> dimension attr = Some v.
Proof.
  intros H Hv. unfold dimension. rewrite H.
  apply Z.eqb_neq in Hv. now rewrite Hv.
Qed.

End SkipPolicy.

Section SkipClaims.
Import JS Images Spec.

(** C8, as it is stated, fails: an image that declares a width of 50
    and no height is transformed, and so is one that declares a width
    and a height of zero. *)
Lemma small_dimension_not_always_skipped :
  shouldSkipImage "photo.jpg" (dimension (Some "50")) (dimension None) = false /\
  outcome encodes siteWithPhoto "_site/index.html"
          (element [("src", "photo.jpg"); ("width", "50")]) = Transformed tt /\
  outcome encodes siteWithPhoto "_site/index.html"
          (element [("src", "photo.jpg"); ("width", "0"); ("height", "0")])
  = Transformed tt.
Proof. repeat split. Qed.

(** C8, amended: an image reference is left out of the transformation
    when its path matches logo, icon or favicon without regard to case,
    whatever dimensions it declares; when it declares both a width and a
    height that read as integers other than zero, and one of them is
    below 100 (so an image of width 50 and height 50 is never
    transformed); when its path ends with .svg; or when its path starts
    with http:// or https://. *)
Theorem skip_policy_excludes
    (Metadata : Type) (Image : string -> option Metadata)
    (disk : Disk) (filePath : string)
    (img : string -> option string) (src : string) (w h : Z)
    (Hsrc : img "src" = Some src) (Hne : src <> "") :
  (testCI "logo" src = true \/ testCI "icon" src = true \/
   testCI "favicon" src = true ->
   (forall width height, shouldSkipImage src width height = true) /\
   outcome Image disk filePath img = Skipped) /\
  (Num.parseInt (img "width") = Some w -> Num.parseInt (img "height") = Some h ->
   w <> 0 -> h <> 0 -> w < 100 \/ h < 100 ->
   outcome Image disk filePath img = Skipped) /\
  (img "width" = Some "50" -> img "height" = Some "50" ->
   outcome Image disk filePath img = Skipped) /\
  (endsWith src ".svg" = true -> outcome Image disk filePath img = Skipped) /\
  (startsWith src "http://" = true \/ startsWith src "https://" = true ->
   outcome Image disk filePath img = Skipped).
Proof.
  assert (Small : forall w h,
             Num.parseInt (img "width") = Some w ->
             Num.parseInt (img "height") = Some h ->
             w <> 0 -> h <> 0 -> w < 100 \/ h < 100 ->
             outcome Image disk filePath img = Skipped).
  { intros w' h' Pw Ph Hw Hh Hs.
    apply (outcome_skipped _ _ _ _ _ src Hsrc Hne).
    rewrite (dimension_nonzero _ _ Pw Hw), (dimension_nonzero _ _ Ph Hh).
    now apply shouldSkipImage_small. }
  split; [| split; [| split; [| split]]].
  - intros H.
    assert (P : forall width height, shouldSkipImage src width height = true).
    { intros width height.
      destruct H as [H | [H | H]];
        [apply (shouldSkipImage_pattern src "logo")
        | apply (shouldSkipImage_pattern src "icon")
        | apply (shouldSkipImage_pattern src "favicon")];
        try exact H; simpl; tauto. }
    split; [exact P |].
    apply (outcome_skipped _ _ _ _ _ src Hsrc Hne), P.
  - apply Small.
  - intros Hw Hh. apply (Small 50 50); try lia; [rewrite Hw | rewrite Hh]; reflexivity.
  - intros H. apply (outcome_skipped _ _ _ _ _ src Hsrc Hne).
    now apply shouldSkipImage_svg.
  - intros H. apply (outcome_skipped _ _ _ _ _ src Hsrc Hne).
    now apply shouldSkipImage_external.
Qed.

Lemma skip_policy_excludes_witness :
  outcome encodes siteWithPhoto "_site/index.html"
          (element [("src", "img/Church-Logo.png"); ("width", "800"); ("height", "600")])
  = Skipped /\
  outcome encodes siteWithPhoto "_site/index.html"
          (element [("src", "photo.jpg"); ("width", "50"); ("height", "50")])
  = Skipped /\
  outcome encodes siteWithPhoto "_site/index.html"
          (element [("src", "https://cdn.example.org/photo.jpg")])
  = Skipped.
Proof.
  assert (N : forall s : string, String.eqb s "" = false -> s <> "")
    by (intros s; apply String.eqb_neq).
  pose proof (skip_policy_excludes unit encodes siteWithPhoto "_site/index.html"
                (element [("src", "img/Church-Logo.png"); ("width", "800"); ("height", "600")])
                "img/Church-Logo.png" 800 600 eq_refl
                (N "img/Church-Logo.png" eq_refl))
    as (P & _).
  pose proof (skip_policy_excludes unit encodes siteWithPhoto "_site/index.html"
                (element [("src", "photo.jpg"); ("width", "50"); ("height", "50")])
                "photo.jpg" 50 50 eq_refl (N "photo.jpg" eq_refl))
    as (_ & _ & S & _).
  pose proof (skip_policy_excludes unit encodes siteWithPhoto "_site/index.html"
                (element [("src", "https://cdn.example.org/photo.jpg")])
                "https://cdn.example.org/photo.jpg" 0 0 eq_refl
                (N "https://cdn.example.org/photo.jpg" eq_refl))
    as (_ & _ & _ & _ & E).
  split; [| split].
  - apply P. left; reflexivity.
  - apply S; reflexivity.
  - apply E. right; reflexivity.
Defined.

End SkipClaims.

Section WriteBack.
Import JS Images Spec.

Variable Dom : Type.
Variable Metadata : Type.
Variable load : string -> Dom.
Variable images : Dom -> list (string -> option string).
Variable replaceWith : Dom -> nat -> string -> Dom.
Variable html : Dom -> string.
Variable Image : string -> option Metadata.
Variable generatePictureHtml : Metadata -> (string -> option string) -> string.

(** The counter of the loop counts the images that were replaced. *)
Lemma processImages_count (d : Disk) (filePath : string)
    (imgs : list (string -> option string)) (i : nat) (st : Loop Dom) :
  processedCount
    (processImages replaceWith Image generatePictureHtml d filePath i imgs st)
  = (processedCount st
     + List.length (filter (fun img => transformed (outcome Image d filePath img)) imgs))%nat.
Proof.
  revert i st; induction imgs as [|img rest IH]; intros i st; simpl.
  - now rewrite Nat.add_0_r.
  - rewrite IH. destruct (outcome Image d filePath img); simpl; lia.
Qed.

Lemma processed_positive (d : Disk) (filePath contents : string) :
  (0 <? processedCount
          (processed load images replaceWith Image generatePictureHtml
                     d filePath contents))%nat = true <->
  exists img metadata,
    In img (images (load contents)) /\
    outcome Image d filePath img = Transformed metadata.
Proof.
  unfold processed. rewrite processImages_count. cbn [processedCount].
  rewrite Nat.ltb_lt. split.
  - intros H.
    destruct (filter (fun img => transformed (outcome Image d filePath img))
                     (images (load contents))) as [|img l] eqn:E;
      [simpl in H; lia |].
    assert (Hin : In img (filter (fun img => transformed (outcome Image d filePath img))
                                 (images (load contents))))
      by (rewrite E; now left).
    apply filter_In in Hin as [Hin T].
    destruct (outcome Image d filePath img) as [ | | | metadata] eqn:O;
      try discriminate T.
    now exists img, metadata.
  - intros (img & metadata & Hin & O).
    assert (F : In img (filter (fun img => transformed (outcome Image d filePath img))
                               (images (load contents)))).
    { apply filter_In. split; [exact Hin | now rewrite O]. }
    destruct (filter _ _); [contradiction | simpl; lia].
Qed.

End WriteBack.

Section WriteBackClaims.
Import JS Images Spec.

(** C9: when an HTML file has been processed, it has been written back
    only if one of its images was transformed; and if no image of the
    file is transformed, nothing is written: the disk, and with it the
    bytes of the file, is what it was. *)
Theorem html_written_only_if_transformed
    (Dom Metadata : Type)
    (load : string -> Dom)
    (images : Dom -> list (string -> option string))
    (replaceWith : Dom -> nat -> string -> Dom)
    (html : Dom -> string)
    (Image : string -> option Metadata)
    (generatePictureHtml : Metadata -> (string -> option string) -> string)
    (w w' : World) (filePath : string)
    (Hrun : processHtmlFile load images replaceWith html Image
                            generatePictureHtml w filePath = Some w') :
  (written w' = written w \/ written w' = filePath :: written w) /\
  (written w' <> written w ->
   exists contents img metadata,
     disk w filePath = Some contents /\
     In img (images (load contents)) /\
     outcome Image (disk w) filePath img = Transformed metadata) /\
  ((forall contents img,
      disk w filePath = Some contents ->
      In img (images (load contents)) ->
      transformed (outcome Image (disk w) filePath img) = false) ->
   w' = w /\ disk w' filePath = disk w filePath).
Proof.
  unfold processHtmlFile in Hrun.
  destruct (disk w filePath) as [contents|] eqn:R; [| discriminate].
  destruct (images (load contents)) as [|img0 rest] eqn:I.
  - inversion Hrun; subst w'. repeat split; auto. intros H; now contradiction H.
  - destruct (0 <? processedCount _)%nat eqn:P.
    + inversion Hrun; subst w'; clear Hrun. cbn [written disk].
      apply processed_positive in P as (img & metadata & Hin & O).
      split; [now right |]. split.
      * intros _. now exists contents, img, metadata.
      * intros H. specialize (H contents img eq_refl Hin).
        rewrite O in H. discriminate H.
    + inversion Hrun; subst w'. repeat split; auto. intros H; now contradiction H.
Qed.

Lemma html_written_only_if_transformed_witness :
  processHtmlFile (fun doc => doc) logoOnly appendMarkup (fun doc => doc)
                  encodes pictureMarkup freshSite "_site/index.html"
  = Some freshSite /\
  (written freshSite = written freshSite \/
   written freshSite = "_site/index.html" :: written freshSite) /\
  disk freshSite "_site/index.html" = disk freshSite "_site/index.html".
Proof.
  assert (R : processHtmlFile (fun doc => doc) logoOnly appendMarkup (fun doc => doc)
                encodes pictureMarkup freshSite "_site/index.html" = Some freshSite)
    by reflexivity.
  pose proof (html_written_only_if_transformed string unit
                (fun doc => doc) logoOnly appendMarkup (fun doc => doc)
                encodes pictureMarkup freshSite freshSite "_site/index.html" R)
    as (W & _ & U).
  split; [exact R |]. split; [exact W |].
  apply U.
  intros contents img _ [<- | []]. reflexivity.
Defined.

End WriteBackClaims.

(* ================================================================== *)
(** * Part III: further properties of the code *)
(* ================================================================== *)

(** ** The scripture normaliser, continued *)

Section NormalizerMore.
Import JS Sermons Spec.

(** As [normalizeWith_cases], with the variant that matched. *)
Lemma normalizeWith_first_match (entries : list (string * string)) (cleaned lower : string) :
  (forallb (fun e => negb (matchesVariant lower (fst e))) entries = true /\
   normalizeWith entries cleaned lower = cleaned) \/
  exists w c, In (w, c) entries /\ matchesVariant lower w = true /\
    normalizeWith entries cleaned lower
    = c ++ suffixOf (trim (slice cleaned (String.length w))).
Proof.
  induction entries as [|[w c] rest IH]; cbn [normalizeWith forallb fst];
    [now left |].
  destruct (matchesVariant lower w) eqn:M.
  - right; exists w, c. repeat split; auto. now left.
  - destruct IH as [[F IH] | (w' & c' & Hin & M' & IH)]; [left | right].
    + now rewrite F.
    + exists w', c'. repeat split; auto. now right.
Qed.

Lemma matches_overlap (l w a : string) :
  matchesVariant l w = true -> matchesVariant l a = true -> overlap w a = true.
Proof.
  unfold matchesVariant, overlap. intros Hw Ha.
  apply orb_true_iff in Hw, Ha.
  rewrite !orb_true_iff.
  destruct Hw as [Hw | Hw], Ha as [Ha | Ha].
  - destruct (startsWith_comparable _ _ _ Hw Ha) as [C | C];
      apply startsWith_blank in C as [-> | C]; auto.
    + left; left. apply String.eqb_refl.
    + left; left. apply String.eqb_refl.
  - apply String.eqb_eq in Ha; subst l. now left; right.
  - apply String.eqb_eq in Hw; subst l. now right.
  - apply String.eqb_eq in Hw, Ha; subst. left; left. apply String.eqb_refl.
Qed.

Lemma table_aliases_agree : aliasesAgree bookNormalization = true.
Proof. vm_compute. reflexivity. Qed.

Lemma aliases_same_book (w a cw ca : string) :
  In (w, cw) bookNormalization -> In (a, ca) bookNormalization ->
  overlap w a = true -> cw = ca.
Proof.
  intros Hw Ha O. pose proof table_aliases_agree as T.
  unfold aliasesAgree in T. rewrite forallb_forall in T.
  specialize (T _ Hw). rewrite forallb_forall in T. specialize (T _ Ha).
  cbn [fst snd] in T. rewrite O in T. now apply String.eqb_eq in T.
Qed.

(** X1: what the normaliser returns has no white space at either end. *)
Theorem normalize_result_trimmed (v : value) :
  trim (normalizeScripture v) = normalizeScripture v.
Proof.
  destruct v as [ | | b | n | s | ]; try reflexivity.
  rewrite normalizeScripture_VStr.
  destruct (String.eqb s ""); [reflexivity |].
  destruct (normalizeWith_cases bookNormalization (trim s) (toLowerCase (trim s)))
    as [H | (w & c & Hin & H)]; rewrite H.
  - apply trim_idem.
  - pose proof table_canonical as T. rewrite forallb_forall in T.
    specialize (T _ Hin); cbn [snd] in T. apply andb_true_iff in T as [_ T].
    now apply trim_canonical.
Qed.

(** X2: the normaliser returns the empty string exactly when its input
    is not a string or is a string of white space only. *)
Theorem normalize_empty_iff_blank (v : value) :
  normalizeScripture v = "" <->
  emptyOrNotString v = true \/ exists s, v = VStr s /\ trim s = "".
Proof.
  split.
  - destruct v as [ | | b | n | s | ]; try (intros _; now left).
    rewrite normalizeScripture_VStr.
    destruct (String.eqb s "") eqn:E; [intros _; now left |].
    intros H. right. exists s. split; [reflexivity |].
    destruct (normalizeWith_cases bookNormalization (trim s) (toLowerCase (trim s)))
      as [H' | (w & c & Hin & H')]; rewrite H' in H; [exact H |].
    pose proof table_canonical as T. rewrite forallb_forall in T.
    specialize (T _ Hin); cbn [snd] in T. apply andb_true_iff in T as [_ T].
    destruct c; [discriminate T | discriminate H].
  - intros [H | (s & -> & H)].
    + destruct v as [ | | b | n | s | ]; try reflexivity.
      cbn [emptyOrNotString] in H. rewrite normalizeScripture_VStr. now rewrite H.
    + rewrite normalizeScripture_VStr, H.
      destruct (String.eqb s ""); reflexivity.
Qed.

Lemma normalize_matched (a c t : string) :
  In (a, c) bookNormalization ->
  matchesVariant (toLowerCase (trim t)) a = true ->
  exists w, In (w, c) bookNormalization /\
    matchesVariant (toLowerCase (trim t)) w = true /\
    normalizeScripture (VStr t)
    = c ++ suffixOf (trim (slice (trim t) (String.length w))).
Proof.
  intros Hin M.
  rewrite normalizeScripture_VStr.
  destruct (String.eqb t "") eqn:E.
  - apply String.eqb_eq in E; subst t.
    assert (N : matchesNoAlias "" = true) by (vm_compute; reflexivity).
    unfold matchesNoAlias in N. rewrite forallb_forall in N.
    specialize (N _ Hin). cbn [fst] in N. rewrite M in N. discriminate N.
  - destruct (normalizeWith_first_match bookNormalization (trim t) (toLowerCase (trim t)))
      as [[F _] | (w & c' & Hw & Mw & H)].
    + rewrite forallb_forall in F. specialize (F _ Hin). cbn [fst] in F.
      rewrite M in F. discriminate F.
    + assert (c' = c)
        by (apply (aliases_same_book w a); auto; now apply (matches_overlap _ _ _ Mw M)).
      subst c'. now exists w.
Qed.

(** X3: when an alias of the table matches the text, the result is the
    canonical name of that alias followed by the trimmed rest of the
    text, also when another variant of the table is met first. *)
Theorem normalize_alias_decides_book (a c t : string) :
  In (a, c) bookNormalization ->
  matchesVariant (toLowerCase (trim t)) a = true ->
  exists w, In (w, c) bookNormalization /\
    matchesVariant (toLowerCase (trim t)) w = true /\
    normalizeScripture (VStr t)
    = c ++ suffixOf (trim (slice (trim t) (String.length w))).
Proof. apply normalize_matched. Qed.

Lemma normalize_alias_decides_book_witness :
  exists w, In (w, "Song of Solomon") bookNormalization /\
    matchesVariant (toLowerCase (trim "Song of Songs 2:1")) w = true /\
    normalizeScripture (VStr "Song of Songs 2:1")
    = "Song of Solomon"
      ++ suffixOf (trim (slice (trim "Song of Songs 2:1") (String.length w))).
Proof.
  apply (normalize_alias_decides_book "song" "Song of Solomon" "Song of Songs 2:1").
  - vm_compute. tauto.
  - reflexivity.
Defined.

End NormalizerMore.

(** ** The book of an entry *)

Section Books.
Import JS Sermons Spec.

(** [extractBook] through the three items of its pattern. *)
Lemma extractBook_parts (s : string) :
  extractBook s =
  if String.eqb s "" then ""
  else let letters := lettersPart (snd (blankPart (snd (digitPart s)))) in
       if String.eqb letters "" then ""
       else trim (fst (digitPart s) ++ fst (blankPart (snd (digitPart s))) ++ letters).
Proof.
  unfold extractBook, lettersPart, digitPart, blankPart.
  destruct s as [|c r]; [reflexivity |].
  change (String.eqb (String c r) "") with false; cbv iota.
  destruct (isDigit c); cbn [fst snd].
  - destruct r as [|c2 r2]; [reflexivity |].
    destruct (isWhiteSpace c2); cbn [fst snd].
    + destruct (span isAlpha r2); reflexivity.
    + destruct (span isAlpha (String c2 r2)); reflexivity.
  - destruct (isWhiteSpace c); cbn [fst snd].
    + destruct (span isAlpha r); reflexivity.
    + destruct (span isAlpha (String c r)); reflexivity.
Qed.

(** A letter is neither a digit nor white space, and a digit is not
    white space. *)
Lemma isAlpha_plain (c : ascii) :
  isAlpha c = true -> isDigit c = false /\ isWhiteSpace c = false.
Proof.
  destruct c as [[] [] [] [] [] [] [] []]; vm_compute; intros H;
    try discriminate H; split; reflexivity.
Qed.

Lemma isDigit_not_white (c : ascii) : isDigit c = true -> isWhiteSpace c = false.
Proof.
  destruct c as [[] [] [] [] [] [] [] []]; vm_compute; intros H;
    try discriminate H; reflexivity.
Qed.

Lemma span_allChars (p : ascii -> bool) (s : string) :
  allChars p (fst (span p s)) = true.
Proof.
  induction s as [|c r IH]; [reflexivity |]. simpl.
  destruct (p c) eqn:E; [| reflexivity].
  destruct (span p r). cbn [fst allChars] in *. now rewrite E.
Qed.

Lemma span_of_allChars (p : ascii -> bool) (l : string) :
  allChars p l = true -> span p l = (l, "").
Proof.
  induction l as [|c r IH]; [reflexivity |]. simpl.
  intros H; apply andb_true_iff in H as [Hc Hr]. now rewrite Hc, (IH Hr).
Qed.

(** Text that starts off the class does not change the prefix read. *)
Lemma span_append (p : ascii -> bool) (s x : string) :
  match x with EmptyString => true | String c _ => negb (p c) end = true ->
  span p (s ++ x) = (fst (span p s), snd (span p s) ++ x).
Proof.
  intros Hx. induction s as [|c r IH]; simpl.
  - destruct x as [|d x']; [reflexivity |].
    simpl. apply negb_true_iff in Hx. now rewrite Hx.
  - destruct (p c); [| reflexivity].
    rewrite IH. now destruct (span p r).
Qed.

Lemma letters_trimEnd (l : string) :
  allChars isAlpha l = true -> l <> "" -> trimEnd l = l.
Proof.
  induction l as [|c r IH]; [congruence |].
  simpl; intros H _; apply andb_true_iff in H as [Hc Hr].
  destruct (isAlpha_plain c Hc) as [_ W].
  destruct r as [|d r']; [simpl; now rewrite W |].
  rewrite (IH Hr) by discriminate. reflexivity.
Qed.

Lemma letters_trim (l : string) :
  allChars isAlpha l = true -> l <> "" -> trim l = l.
Proof.
  intros H N. unfold trim.
  destruct l as [|c r]; [congruence |].
  pose proof H as H'. simpl in H'. apply andb_true_iff in H' as [Hc _].
  destruct (isAlpha_plain c Hc) as [_ W].
  rewrite (trimStart_head _ _ W). now apply letters_trimEnd.
Qed.

Lemma letters_parts (l : string) :
  allChars isAlpha l = true -> l <> "" ->
  digitPart l = ("", l) /\ blankPart l = ("", l) /\ lettersPart l = l.
Proof.
  intros H N. destruct l as [|c r]; [congruence |].
  pose proof H as H'. simpl in H'. apply andb_true_iff in H' as [Hc _].
  destruct (isAlpha_plain c Hc) as [D W].
  unfold digitPart, blankPart, lettersPart. rewrite D, W.
  now rewrite (span_of_allChars _ _ H).
Qed.

Lemma digitPart_shape (s : string) :
  fst (digitPart s) = "" \/
  exists c, isDigit c = true /\ fst (digitPart s) = String c "".
Proof.
  unfold digitPart. destruct s as [|c r]; [now left |].
  destruct (isDigit c) eqn:D; [right; now exists c | now left].
Qed.

Lemma blankPart_shape (s : string) :
  fst (blankPart s) = "" \/
  exists c, isWhiteSpace c = true /\ fst (blankPart s) = String c "".
Proof.
  unfold blankPart. destruct s as [|c r]; [now left |].
  destruct (isWhiteSpace c) eqn:D; [right; now exists c | now left].
Qed.

(** The text matched by the pattern, once trimmed, is read back as it
    is. *)
Lemma extractBook_token (d w l : string) :
  d = "" \/ (exists c, isDigit c = true /\ d = String c "") ->
  w = "" \/ (exists c, isWhiteSpace c = true /\ w = String c "") ->
  allChars isAlpha l = true -> l <> "" ->
  extractBook (trim (d ++ w ++ l)) = trim (d ++ w ++ l).
Proof.
  intros Hd Hw A N.
  destruct (letters_parts l A N) as (PD & PB & PL).
  pose proof N as E. apply String.eqb_neq in E.
  assert (L : extractBook l = l).
  { rewrite extractBook_parts, E. cbv zeta.
    rewrite PD; cbn [fst snd]; rewrite PB; cbn [fst snd].
    rewrite PL, E. cbn [append]. now apply letters_trim. }
  destruct Hd as [-> | (c & D & ->)].
  - cbn [append].
    assert (T : trim (w ++ l) = l).
    { destruct Hw as [-> | (c2 & W2 & ->)]; cbn [append].
      - now apply letters_trim.
      - unfold trim. cbn [trimStart]. rewrite W2.
        now apply letters_trim. }
    now rewrite T.
  - assert (T : trim (String c "" ++ w ++ l) = String c (w ++ l)).
    { unfold trim. cbn [append].
      rewrite (trimStart_head _ _ (isDigit_not_white c D)).
      change (String c (w ++ l)) with ((String c w) ++ l).
      rewrite trimEnd_append; rewrite (letters_trimEnd l A N); auto. }
    rewrite T. rewrite extractBook_parts.
    change (String.eqb (String c (w ++ l)) "") with false. cbv iota zeta.
    cbn [digitPart]. rewrite D. cbn [fst snd].
    assert (B : blankPart (w ++ l) = (w, l)).
    { destruct Hw as [-> | (c2 & W2 & ->)]; cbn [append].
      - exact PB.
      - cbn [blankPart]. now rewrite W2. }
    rewrite B; cbn [fst snd]. rewrite PL, E. exact T.
Qed.

(** X4: the book read from a book is that book: [extractBook] gives a
    text without white space around it, and reads it back as it is. *)
Theorem extractBook_idempotent (s : string) :
  extractBook (extractBook s) = extractBook s /\
  trim (extractBook s) = extractBook s.
Proof.
  rewrite (extractBook_parts s).
  destruct (String.eqb s ""); [split; reflexivity |]. cbv zeta.
  set (l := lettersPart (snd (blankPart (snd (digitPart s))))).
  assert (A : allChars isAlpha l = true) by apply span_allChars.
  destruct (String.eqb l "") eqn:E; [split; reflexivity |].
  apply String.eqb_neq in E. split.
  - apply extractBook_token; auto using digitPart_shape, blankPart_shape.
  - apply trim_idem.
Qed.

Lemma extractBook_append (s x : string) :
  extractBook s <> "" -> startsOffLetters x = true ->
  extractBook (s ++ x) = extractBook s.
Proof.
  intros N Hx. rewrite (extractBook_parts s) in N |- *.
  rewrite (extractBook_parts (s ++ x)).
  destruct s as [|c r]; [now contradiction N |].
  change (String.eqb (String c r) "") with false in *.
  change (String.eqb (String c r ++ x) "") with false.
  cbv iota zeta in *.
  assert (D : digitPart (String c r ++ x)
              = (fst (digitPart (String c r)), snd (digitPart (String c r)) ++ x)).
  { cbn [digitPart append]. now destruct (isDigit c). }
  rewrite D; cbn [fst snd].
  set (r1 := snd (digitPart (String c r))) in *.
  destruct r1 as [|c1 r1'] eqn:R1; [now contradiction N |].
  assert (B : blankPart (String c1 r1' ++ x)
              = (fst (blankPart (String c1 r1')), snd (blankPart (String c1 r1')) ++ x)).
  { cbn [blankPart append]. now destruct (isWhiteSpace c1). }
  rewrite B; cbn [fst snd].
  unfold lettersPart in *. rewrite span_append by exact Hx. reflexivity.
Qed.

Lemma suffixOf_startsOffLetters (r : string) : startsOffLetters (suffixOf r) = true.
Proof. unfold suffixOf. now destruct (String.eqb r ""). Qed.

(** Every canonical name of the table starts with a book. *)
Lemma table_books :
  forallb (fun e => negb (String.eqb (extractBook (snd e)) "")) bookNormalization = true.
Proof. vm_compute. reflexivity. Qed.

(** X5: when an alias of the table matches the scripture of an entry,
    the book of the entry is the book read from the canonical name of
    the alias, whatever follows the alias in the scripture. *)
Theorem book_of_matched_entry (index : nat) (item : Item) (a c : string) :
  In (a, c) bookNormalization ->
  matchesVariant (toLowerCase (trim (scripture (buildSermon index item)))) a = true ->
  book (buildSermon index item) = extractBook c /\ extractBook c <> "".
Proof.
  intros Hin M.
  assert (N : extractBook c <> "").
  { pose proof table_books as T. rewrite forallb_forall in T.
    specialize (T _ Hin). cbn [snd] in T.
    now apply negb_true_iff, String.eqb_neq in T. }
  split; [| exact N].
  destruct (normalize_matched a c _ Hin M) as (w & _ & _ & H).
  cbn [buildSermon book scripture] in *. rewrite H.
  apply extractBook_append; [exact N | apply suffixOf_startsOffLetters].
Qed.

Lemma book_of_matched_entry_witness :
  book (buildSermon 0 (withContent "song of songs 2:1")) = extractBook "Song of Solomon"
  /\ extractBook "Song of Solomon" <> "".
Proof.
  apply (book_of_matched_entry 0 (withContent "song of songs 2:1")
           "song" "Song of Solomon").
  - vm_compute. tauto.
  - reflexivity.
Defined.

End Books.

(** ** The collection of sermons *)

Section CollectionFacts.
Import JS Sermons Spec Arr.

Lemma mapIndexed_nth {A B : Type} (f : nat -> A -> B) (l : list A) (i : nat) (y : B) :
  In y (mapIndexed f i l) ->
  exists k x, nth_error l k = Some x /\ y = f (i + k)%nat x.
Proof.
  revert i; induction l as [|x r IH]; intros i; simpl; [tauto |].
  intros [<- | H].
  - exists 0%nat, x. now rewrite Nat.add_0_r.
  - destruct (IH _ H) as (k & x' & Hk & ->).
    exists (S k), x'. split; [exact Hk | f_equal; lia].
Qed.

Lemma mapIndexed_ids (l : list Item) (i : nat) :
  map id (mapIndexed buildSermon i l) = seq i (List.length l).
Proof.
  revert i; induction l as [|x r IH]; intros i; simpl; [reflexivity |].
  now rewrite IH.
Qed.

Lemma indexString_inj (i j : nat) : indexString i = indexString j -> i = j.
Proof.
  unfold indexString. intros H.
  apply DecimalNat.Unsigned.to_uint_inj.
  assert (E : Some (Nat.to_uint i) = Some (Nat.to_uint j)).
  { rewrite <- !NilEmpty.usu. now rewrite H. }
  now inversion E.
Qed.

(** A relation that is transitive through the elements of the list:
    what holds from each element to the next holds to all that follow. *)
Lemma Sorted_StronglySorted_on {A : Type} (R : A -> A -> Prop) (P : A -> Prop) :
  (forall a b c, P b -> R a b -> R b c -> R a c) ->
  forall l, Forall P l -> Sorted R l -> StronglySorted R l.
Proof.
  intros T l; induction l as [|a l IH]; intros F S; constructor.
  - apply IH; [now inversion F | now inversion S].
  - inversion S as [|? ? S' H]; subst. inversion F as [|? ? Pa Fl]; subst.
    assert (SS : StronglySorted R l) by (apply IH; assumption).
    destruct l as [|b l']; constructor.
    + now inversion H.
    + inversion H; subst. inversion SS as [|? ? _ Hb]; subst.
      inversion Fl; subst.
      eapply Forall_impl; [| exact Hb]. intros c Rbc. now apply (T a b c).
Qed.

Lemma Sorted_impl {A : Type} (R R' : A -> A -> Prop) (l : list A) :
  (forall a b, R a b -> R' a b) -> Sorted R l -> Sorted R' l.
Proof.
  intros I S; induction S as [|a l S IH H]; constructor; auto.
  destruct H; constructor; auto.
Qed.

Lemma compareDates_opposite (dateValue : field -> option Z) (a b : Sermon) :
  0 < compareDates dateValue a b -> compareDates dateValue b a <= 0.
Proof.
  unfold compareDates.
  destruct (dateValue (date a)), (dateValue (date b)); lia.
Qed.

(** The order of the code units is a total order. *)
Lemma codeLe_trans (a b c : string) : codeLe a b -> codeLe b c -> codeLe a c.
Proof.
  unfold codeLe. revert b c; induction a as [|x a IH]; intros [|y b] [|z c];
    simpl; try congruence.
  unfold Ascii.compare.
  destruct (N.compare_spec (N_of_ascii x) (N_of_ascii y)) as [E1 | L1 | G1];
    destruct (N.compare_spec (N_of_ascii y) (N_of_ascii z)) as [E2 | L2 | G2];
    destruct (N.compare_spec (N_of_ascii x) (N_of_ascii z)) as [E3 | L3 | G3];
    intros H1 H2; try congruence; try (now apply (IH b c)); exfalso; lia.
Qed.

Lemma codeLe_antisym (a b : string) : codeLe a b -> codeLe b a -> a = b.
Proof.
  unfold codeLe. intros H1 H2. apply String.compare_eq_iff.
  rewrite String.compare_antisym in H2.
  destruct (String.compare a b); simpl in *; congruence.
Qed.

Lemma defaultCompare_opposite (a b : string) :
  0 < defaultCompare a b -> defaultCompare b a <= 0.
Proof.
  unfold defaultCompare. rewrite (String.compare_antisym b a).
  destruct (String.compare a b); simpl; lia.
Qed.

Lemma defaultCompare_codeLe (a b : string) :
  inOrder defaultCompare a b -> codeLe a b.
Proof.
  unfold inOrder, defaultCompare, codeLe.
  destruct (String.compare a b); [congruence | congruence | lia].
Qed.

(** Two arrays without repetition, in order, with the same elements,
    are equal. *)
Lemma sorted_unique (l1 l2 : list string) :
  StronglySorted codeLe l1 -> StronglySorted codeLe l2 ->
  NoDup l1 -> NoDup l2 ->
  (forall x, In x l1 <-> In x l2) -> l1 = l2.
Proof.
  revert l2; induction l1 as [|a l1 IH]; intros [|b l2] S1 S2 N1 N2 E.
  - reflexivity.
  - exfalso. apply (proj2 (E b)). now left.
  - exfalso. apply (proj1 (E a)). now left.
  - inversion S1 as [|? ? S1' F1]; inversion S2 as [|? ? S2' F2]; subst.
    inversion N1 as [|? ? Na N1']; inversion N2 as [|? ? Nb N2']; subst.
    rewrite Forall_forall in F1, F2.
    assert (a = b).
    { destruct (proj1 (E a) (or_introl eq_refl)) as [-> | Ha]; [reflexivity |].
      destruct (proj2 (E b) (or_introl eq_refl)) as [-> | Hb]; [reflexivity |].
      apply codeLe_antisym; auto. }
    subst b. f_equal. apply IH; auto.
    intros x. split; intros Hx.
    + destruct (proj1 (E x) (or_intror Hx)) as [-> | H]; [contradiction | exact H].
    + destruct (proj2 (E x) (or_intror Hx)) as [-> | H]; [contradiction | exact H].
Qed.

Lemma speakersFacet_sorted (sermons : list Sermon) :
  StronglySorted codeLe (speakersFacet sermons) /\ NoDup (speakersFacet sermons) /\
  (forall x, In x (speakersFacet sermons) <-> In x (map speaker sermons)).
Proof.
  unfold speakersFacet. split; [| split].
  - apply Sorted_StronglySorted; [exact codeLe_trans |].
    eapply Sorted_impl; [exact defaultCompare_codeLe |].
    apply sortBy_sorted. exact defaultCompare_opposite.
  - eapply Permutation_NoDup; [symmetry; apply sortBy_perm |].
    apply setOf_NoDup. exact String.eqb_eq.
  - intros x. now rewrite sortBy_In, (setOf_In _ String.eqb_eq).
Qed.

End CollectionFacts.

Section CollectionProperties.
Import JS Sermons Spec Arr.

(** X6: the identifier of an entry is never empty; a guid of the feed
    is kept whatever the place of the item; and two items without guid
    and without link, at different places of the feed, get different
    identifiers. *)
Theorem guid_by_position_is_distinct (i j : nat) (a b : Item) (g : string) :
  guid (buildSermon i a) <> "" /\
  (itemGuid a = Some g -> g <> "" -> guid (buildSermon i a) = g) /\
  (unidentified a = true -> unidentified b = true -> i <> j ->
   guid (buildSermon i a) <> guid (buildSermon j b)).
Proof.
  assert (U : forall k it, unidentified it = true ->
                guid (buildSermon k it) = "sermon-" ++ indexString k).
  { intros k it H. unfold unidentified in H. apply String.eqb_eq in H.
    cbn [buildSermon guid]. unfold orElse in *.
    destruct (orField (itemGuid it) (itemLink it)) as [s|]; [| reflexivity].
    destruct (String.eqb s "") eqn:E; [reflexivity |].
    apply String.eqb_neq in E. congruence. }
  split; [| split].
  - cbn [buildSermon guid]. apply orElse_nonempty. discriminate.
  - intros Hg Hne. cbn [buildSermon guid]. unfold orField. rewrite Hg.
    apply String.eqb_neq in Hne. rewrite Hne. unfold orElse. now rewrite Hne.
  - intros Ha Hb Hij. rewrite (U i a Ha), (U j b Hb). intros E.
    apply Hij, indexString_inj.
    cbn [append] in E. now inversion E.
Qed.

Lemma guid_by_position_is_distinct_witness :
  unidentified (withContent "John 3:16") = true /\
  guid (buildSermon 1 (withContent "John 3:16"))
  <> guid (buildSermon 2 (withContent "John 3:16")).
Proof.
  pose proof (guid_by_position_is_distinct 1 2 (withContent "John 3:16")
                (withContent "John 3:16") "") as (_ & _ & D).
  split; [reflexivity |].
  apply D; [reflexivity | reflexivity | discriminate].
Defined.


(** X8: when the date of every item can be read, the entries are in
    the order of their dates, the newest first: no entry is older than
    one that follows it. *)
Theorem sermons_newest_first
    (dateValue : field -> option Z) (items : list Item)
    (Hdates : forall item, In item items -> dateValue (itemPubDate item) <> None) :
  StronglySorted (notOlder dateValue) (sermonsOf dateValue items).
Proof.
  apply (Sorted_StronglySorted_on _ (dated dateValue)).
  - unfold notOlder, dated. intros a b c Pb Rab Rbc ta tc Ha Hc.
    destruct (dateValue (date b)) as [tb|] eqn:Hb; [| congruence].
    specialize (Rab ta tb Ha eq_refl). specialize (Rbc tb tc eq_refl Hc). lia.
  - apply Forall_forall. intros s H.
    apply sermonsOf_In in H as (i & item & Hin & ->).
    unfold dated. cbn [buildSermon date]. now apply Hdates.
  - eapply Sorted_impl; [| apply sortBy_sorted, compareDates_opposite].
    unfold inOrder, notOlder, compareDates. intros a b H ta tb Ha Hb.
    rewrite Ha, Hb in H. lia.
Qed.

Lemma sermons_newest_first_witness :
  StronglySorted (notOlder numericDate)
    (sermonsOf numericDate
       [publishedAt "100" "A"; publishedAt "300" "B"; publishedAt "200" "C"])
  /\ map speaker (sermonsOf numericDate
       [publishedAt "100" "A"; publishedAt "300" "B"; publishedAt "200" "C"])
     = ["B"; "C"; "A"].
Proof.
  split; [| reflexivity].
  apply sermons_newest_first.
  intros item [<- | [<- | [<- | []]]]; discriminate.
Defined.

(** X9: the speakers facet holds the speakers of the entries, each
    once, in the order of the code units; it depends on who the speakers
    are and not on the order of the entries or on how often a speaker
    occurs. *)
Theorem speakers_facet_canonical (sermons sermons' : list Sermon) :
  StronglySorted codeLe (speakersFacet sermons) /\
  NoDup (speakersFacet sermons) /\
  (forall x, In x (speakersFacet sermons) <-> In x (map speaker sermons)) /\
  ((forall x, In x (map speaker sermons) <-> In x (map speaker sermons')) ->
   speakersFacet sermons = speakersFacet sermons').
Proof.
  destruct (speakersFacet_sorted sermons) as (S & N & M).
  destruct (speakersFacet_sorted sermons') as (S' & N' & M').
  repeat split; auto; try apply M.
  intros E. apply sorted_unique; auto.
  intros x. now rewrite M, M', E.
Qed.

Lemma speakers_facet_canonical_witness :
  speakersFacet (sermonsOf noDate [publishedAt "1" "Bob"; publishedAt "2" "Al"])
  = speakersFacet (sermonsOf noDate
      [publishedAt "2" "Al"; publishedAt "1" "Bob"; publishedAt "3" "Al"]).
Proof.
  apply (proj2 (proj2 (proj2 (speakers_facet_canonical _ _)))).
  intros x. vm_compute. tauto.
Defined.

End CollectionProperties.

(** ** The calendar, continued *)

Section CalendarMore.
Import JS Calendar Spec Arr.

Variable RRule : Type.
Variable between : RRule -> time -> time -> bool -> option (list time).

Lemma startsBefore_sorted (l : list CalendarEvent) :
  StronglySorted startsBefore (sortBy (fun a b => evStart a - evStart b) l).
Proof.
  apply Sorted_StronglySorted.
  - intros a b c. unfold startsBefore. lia.
  - eapply Sorted_impl; [| apply sortBy_sorted].
    + unfold inOrder, startsBefore. intros a b. lia.
    + intros a b. lia.
Qed.

(** In an array in order, what comes first is before what follows. *)
Lemma StronglySorted_app {A : Type} (R : A -> A -> Prop) (l1 l2 : list A) :
  StronglySorted R (l1 ++ l2) ->
  StronglySorted R l1 /\ (forall a b, In a l1 -> In b l2 -> R a b).
Proof.
  induction l1 as [|x l1 IH]; simpl; intros S.
  - split; [constructor | tauto].
  - inversion S as [|? ? S' F]; subst. destruct (IH S') as [S1 C].
    rewrite Forall_forall in F. split.
    + constructor; [exact S1 |]. apply Forall_forall. intros y Hy.
      apply F, in_or_app. now left.
    + intros a b [<- | Ha] Hb; [| now apply C].
      apply F, in_or_app. now right.
Qed.

Lemma calendar_from_events (now : time) (events : list (Event RRule)) (ev : CalendarEvent) :
  In ev (calendar between now events) ->
  exists event, In event events /\ In ev (eventsOf between now event).
Proof.
  unfold calendar. intros H.
  assert (H' : In ev (sortBy (fun a b => evStart a - evStart b)
                             (flat_map (eventsOf between now) events))).
  { rewrite <- (firstn_skipn 7). apply in_or_app. now left. }
  rewrite sortBy_In in H'. now apply in_flat_map in H'.
Qed.

Lemma eventsOf_nothing (now : time) (event : Event RRule) :
  type event <> "VEVENT" \/
  (exists rule, rrule event = Some rule /\
                between rule now (now + WEEK) true = None) \/
  (rrule event = None /\ start event = None) ->
  eventsOf between now event = [].
Proof.
  unfold eventsOf, expandRecurring, singleEvent.
  intros [H | [(rule & Hr & Hb) | [Hr Hs]]].
  - apply String.eqb_neq in H. now rewrite H.
  - rewrite Hr, Hb. now destruct (negb _).
  - rewrite Hr, Hs. now destruct (negb _).
Qed.

End CalendarMore.

Section CalendarProperties.
Import JS Calendar Spec Arr.

(** X10: the list returned has at most seven events, in the order of
    their starts, and they are the earliest ones: the events found are
    the seven returned and a rest, and no event of the rest starts
    before an event that is returned. *)
Theorem calendar_keeps_the_earliest
    (RRule : Type)
    (between : RRule -> time -> time -> bool -> option (list time))
    (now : time) (events : list (Event RRule)) :
  (List.length (calendar between now events) <= 7)%nat /\
  StronglySorted startsBefore (calendar between now events) /\
  exists rest,
    Permutation (flat_map (eventsOf between now) events)
                (calendar between now events ++ rest) /\
    forall kept left, In kept (calendar between now events) -> In left rest ->
                      evStart kept <= evStart left.
Proof.
  unfold calendar.
  set (sorted := sortBy (fun a b => evStart a - evStart b)
                        (flat_map (eventsOf between now) events)).
  pose proof (startsBefore_sorted (flat_map (eventsOf between now) events)) as S.
  fold sorted in S. rewrite <- (firstn_skipn 7 sorted) in S.
  apply StronglySorted_app in S as [S1 C].
  split; [apply firstn_le_length |]. split; [exact S1 |].
  exists (skipn 7 sorted). split; [| exact C].
  rewrite firstn_skipn. symmetry. apply sortBy_perm.
Qed.

(** X11: if the library returns, for each rule, dates of the window
    only, every event of the list returned starts in the window of seven
    days that begins at the build, both ends included. *)
Theorem calendar_events_in_window
    (RRule : Type)
    (between : RRule -> time -> time -> bool -> option (list time))
    (now : time) (events : list (Event RRule))
    (Hlibrary : forall rule dates d,
        between rule now (now + WEEK) true = Some dates -> In d dates ->
        inWindow now d) :
  Forall (fun ev => inWindow now (evStart ev)) (calendar between now events).
Proof.
  apply Forall_forall. intros ev H.
  apply calendar_from_events in H as (event & _ & H).
  unfold eventsOf in H. destruct (negb _); [contradiction |].
  destruct (rrule event) as [rule|].
  - unfold expandRecurring in H.
    destruct (between rule now (now + WEEK) true) as [dates|] eqn:B;
      [| contradiction].
    destruct (end_ event), (start event); try contradiction;
      apply in_map_iff in H as (d & <- & Hd); cbn [evStart occurrence];
      now apply (Hlibrary rule dates).
  - unfold singleEvent in H. destruct (start event) as [t|]; [| contradiction].
    destruct ((t <? now) || (now + WEEK <? t)) eqn:G; [contradiction |].
    destruct H as [<- | []]. cbn [evStart occurrence].
    apply orb_false_iff in G as [G1 G2].
    apply Z.ltb_ge in G1, G2. unfold inWindow. lia.
Qed.

Lemma calendar_events_in_window_witness :
  Forall (fun ev => inWindow (3 * DAY) (evStart ev))
         (calendar intervalBetween (3 * DAY) [weeklyService; singleAt (5 * DAY)]).
Proof.
  apply calendar_events_in_window.
  intros rule dates d B H.
  apply (intervalBetween_closed rule (3 * DAY) (3 * DAY + WEEK) d dates B) in H.
  exact (proj2 H).
Defined.

(** X12: an entry of type VEVENT without rule, with a start, gives one
    event, with that start and the end of the entry, exactly when the
    start is in the window, both ends included; otherwise it gives
    none. *)
Theorem single_event_iff_in_window
    (RRule : Type)
    (between : RRule -> time -> time -> bool -> option (list time))
    (now t : time) (event : Event RRule)
    (Htype : type event = "VEVENT") (Hrule : rrule event = None)
    (Hstart : start event = Some t) :
  (inWindow now t ->
   exists ev, eventsOf between now event = [ev] /\
              evStart ev = t /\ evEnd ev = end_ event) /\
  (~ inWindow now t -> eventsOf between now event = []).
Proof.
  unfold eventsOf, singleEvent, inWindow. rewrite Htype, Hrule, Hstart.
  cbn [String.eqb negb]. change (negb (String.eqb "VEVENT" "VEVENT")) with false.
  cbv iota. split; intros H.
  - assert (G : (t <? now) || (now + WEEK <? t) = false).
    { apply orb_false_iff. split; apply Z.ltb_ge; lia. }
    rewrite G. eexists; split; [reflexivity | split; reflexivity].
  - assert (G : (t <? now) || (now + WEEK <? t) = true).
    { apply orb_true_iff.
      destruct (Z.ltb_spec t now); [now left | right].
      apply Z.ltb_lt. lia. }
    now rewrite G.
Qed.

Lemma single_event_iff_in_window_witness :
  (exists ev, eventsOf intervalBetween (3 * DAY) (singleAt (3 * DAY + WEEK)) = [ev] /\
              evStart ev = 3 * DAY + WEEK /\
              evEnd ev = end_ (singleAt (3 * DAY + WEEK))) /\
  eventsOf intervalBetween (3 * DAY) (singleAt (11 * DAY)) = [].
Proof.
  split.
  - apply (proj1 (single_event_iff_in_window Interval intervalBetween
                    (3 * DAY) (3 * DAY + WEEK) (singleAt (3 * DAY + WEEK))
                    eq_refl eq_refl eq_refl)).
    unfold inWindow. vm_compute. split; discriminate.
  - apply (proj2 (single_event_iff_in_window Interval intervalBetween
                    (3 * DAY) (11 * DAY) (singleAt (11 * DAY))
                    eq_refl eq_refl eq_refl)).
    unfold inWindow. vm_compute. intros [_ H]. now apply H.
Defined.

(** X13: an entry that is no VEVENT, or whose rule cannot be expanded,
    or that has neither rule nor start, is passed over: the list
    returned is the one of the feed without that entry. *)
Theorem calendar_skips_bad_entries
    (RRule : Type)
    (between : RRule -> time -> time -> bool -> option (list time))
    (now : time) (before after : list (Event RRule)) (bad : Event RRule)
    (Hbad : type bad <> "VEVENT" \/
            (exists rule, rrule bad = Some rule /\
                          between rule now (now + WEEK) true = None) \/
            (rrule bad = None /\ start bad = None)) :
  calendar between now (before ++ bad :: after)
  = calendar between now (before ++ after).
Proof.
  unfold calendar. rewrite !flat_map_app. cbn [flat_map].
  now rewrite (eventsOf_nothing _ between now bad Hbad).
Qed.

Lemma calendar_skips_bad_entries_witness :
  calendar brokenRule (3 * DAY) ([singleAt (5 * DAY)] ++ weeklyService :: [timezoneEntry])
  = calendar brokenRule (3 * DAY) ([singleAt (5 * DAY)] ++ [timezoneEntry]).
Proof.
  apply calendar_skips_bad_entries.
  right; left. exists weekly. split; reflexivity.
Defined.

End CalendarProperties.

(** ** The image rewriter, continued *)

Section RewriterMore.
Import JS Images Spec.

Variable Dom : Type.
Variable Metadata : Type.
Variable load : string -> Dom.
Variable images : Dom -> list (string -> option string).
Variable replaceWith : Dom -> nat -> string -> Dom.
Variable html : Dom -> string.
Variable Image : string -> option Metadata.
Variable generatePictureHtml : Metadata -> (string -> option string) -> string.

(** What a run of [processHtmlFile] can do to the disk: nothing, or
    one write to the file it was given, which existed. *)
Lemma processHtmlFile_effect (w w' : World) (filePath : string) :
  processHtmlFile load images replaceWith html Image generatePictureHtml
                  w filePath = Some w' ->
  exists contents, disk w filePath = Some contents /\
    (w' = w \/
     w' = {| disk := writeFile (disk w) filePath
                       (html (dom (processed load images replaceWith Image
                                     generatePictureHtml (disk w) filePath contents)));
             written := filePath :: written w |}).
Proof.
  unfold processHtmlFile.
  destruct (disk w filePath) as [contents|]; [| discriminate].
  intros H. exists contents. split; [reflexivity |].
  destruct (images (load contents)); [left; congruence |].
  destruct (0 <? _)%nat; [right | left]; congruence.
Qed.

Lemma writeFile_other (d : Disk) (path content p : string) :
  p <> path -> writeFile d path content p = d p.
Proof.
  intros H. unfold writeFile. apply String.eqb_neq in H. now rewrite H.
Qed.

Lemma processHtmlFile_frame (w w' : World) (filePath : string) :
  processHtmlFile load images replaceWith html Image generatePictureHtml
                  w filePath = Some w' ->
  (forall p, p <> filePath -> disk w' p = disk w p) /\
  (forall p, disk w' p = None <-> disk w p = None) /\
  (forall p, In p (written w') -> In p (written w) \/ p = filePath).
Proof.
  intros H. apply processHtmlFile_effect in H as (contents & R & [-> | ->]).
  - repeat split; auto.
  - cbn [disk written]. split; [| split].
    + intros p Hp. now apply writeFile_other.
    + intros p. unfold writeFile. destruct (String.eqb p filePath) eqn:E; [| tauto].
      apply String.eqb_eq in E; subst p. rewrite R. split; discriminate.
    + intros p [<- | Hp]; auto.
Qed.

Lemma processImages_counts (d : Disk) (filePath : string)
    (imgs : list (string -> option string)) (i : nat) (st : Loop Dom) :
  let st' := processImages replaceWith Image generatePictureHtml d filePath i imgs st in
  (processedCount st' + skippedCount st'
   = processedCount st + skippedCount st + List.length (filter hasSource imgs))%nat.
Proof.
  revert i st; induction imgs as [|img rest IH]; intros i st; cbv zeta in *.
  - simpl. lia.
  - cbn [processImages filter]. rewrite IH.
    unfold outcome, hasSource.
    destruct (img "src") as [src|]; [| simpl; lia].
    destruct (String.eqb src ""); cbn [negb]; [simpl; lia |].
    destruct (shouldSkipImage _ _ _); [simpl; lia |].
    destruct (processImage _ _ _ _); simpl; lia.
Qed.

End RewriterMore.

Section RewriterProperties.
Import JS Images Spec.




(** X16: every image of a file that has a source is counted once, as
    optimized or as skipped; the images without source are counted in
    neither. *)
Theorem every_sourced_image_is_counted
    (Dom Metadata : Type)
    (load : string -> Dom)
    (images : Dom -> list (string -> option string))
    (replaceWith : Dom -> nat -> string -> Dom)
    (Image : string -> option Metadata)
    (generatePictureHtml : Metadata -> (string -> option string) -> string)
    (d : Disk) (filePath contents : string) :
  (processedCount (processed load images replaceWith Image generatePictureHtml
                             d filePath contents)
   + skippedCount (processed load images replaceWith Image generatePictureHtml
                             d filePath contents)
   = List.length (filter hasSource (images (load contents))))%nat.
Proof.
  unfold processed.
  pose proof (processImages_counts Dom Metadata replaceWith Image generatePictureHtml
                d filePath (images (load contents)) 0
                {| dom := load contents; processedCount := 0; skippedCount := 0 |}) as H.
  cbv zeta in H. rewrite H. reflexivity.
Qed.

(** X17: an image is transformed only if it has a source, the policy
    does not skip it, the encoder succeeds on the path it is resolved
    to, and a file exists at that path; for a source that starts with a
    slash that path is under the output root, so that the file has to
    exist there. *)
Theorem transformed_only_with_a_file
    (Metadata : Type) (Image : string -> option Metadata)
    (d : Disk) (filePath : string) (img : string -> option string)
    (metadata : Metadata)
    (Hout : outcome Image d filePath img = Transformed metadata) :
  exists src,
    img "src" = Some src /\ src <> "" /\
    shouldSkipImage src (dimension (img "width")) (dimension (img "height")) = false /\
    d (getImagePath d src filePath) <> None /\
    Image (getImagePath d src filePath) = Some metadata /\
    (startsWith src "/" = true -> d (Path.join [SITE_DIR; src]) <> None).
Proof.
  unfold outcome in Hout.
  destruct (img "src") as [src|]; [| discriminate].
  destruct (String.eqb src "") eqn:E; [discriminate |].
  destruct (shouldSkipImage _ _ _) eqn:S; [discriminate |].
  unfold processImage in Hout.
  destruct (awaitOk (access d (getImagePath d src filePath))) eqn:A;
    [| discriminate].
  destruct (Image (getImagePath d src filePath)) as [m|] eqn:I; [| discriminate].
  inversion Hout; subst m.
  assert (X : d (getImagePath d src filePath) <> None).
  { unfold access in A. now destruct (d (getImagePath d src filePath)). }
  exists src. repeat split; auto.
  - now apply String.eqb_neq.
  - intros R. now rewrite <- (getImagePath_rooted d src filePath R).
Qed.

Lemma transformed_only_with_a_file_witness :
  exists src,
    element [("src", "photo.jpg")] "src" = Some src /\ src <> "" /\
    shouldSkipImage src (dimension (element [("src", "photo.jpg")] "width"))
                    (dimension (element [("src", "photo.jpg")] "height")) = false /\
    siteWithPhoto (getImagePath siteWithPhoto src "_site/index.html") <> None /\
    encodes (getImagePath siteWithPhoto src "_site/index.html") = Some tt /\
    (startsWith src "/" = true -> siteWithPhoto (Path.join [SITE_DIR; src]) <> None).
Proof.
  apply (transformed_only_with_a_file unit encodes siteWithPhoto "_site/index.html"
           (element [("src", "photo.jpg")]) tt).
  reflexivity.
Defined.

End RewriterProperties.

(** ** The filter [slugify] *)

Section SlugFacts.
Import JS Eleventy Spec.

#[local] Arguments isWord : simpl never.
#[local] Arguments isDash : simpl never.
#[local] Arguments slugChar : simpl never.

(** What the character classes say of each other. *)
Lemma lowerChar_not_upper (c : ascii) : isUpper (lowerChar c) = false.
Proof. destruct c as [[] [] [] [] [] [] [] []]; vm_compute; reflexivity. Qed.

Lemma dash_not_upper : isUpper "-" = false.
Proof. reflexivity. Qed.

Lemma word_slugChar (c : ascii) :
  isUpper c = false -> isWord c || isDash c = true -> slugChar c = true.
Proof.
  destruct c as [[] [] [] [] [] [] [] []]; vm_compute; intros H1 H2;
    try reflexivity; congruence.
Qed.

Lemma slugChar_plain (c : ascii) :
  slugChar c = true ->
  lowerChar c = c /\ isWhiteSpace c = false /\ isWord c || isDash c = true.
Proof.
  destruct c as [[] [] [] [] [] [] [] []]; vm_compute; intros H;
    try discriminate H; repeat split; reflexivity.
Qed.

Lemma allChars_impl (p q : ascii -> bool) (s : string) :
  (forall c, p c = true -> q c = true) -> allChars p s = true -> allChars q s = true.
Proof.
  intros I; induction s as [|c r IH]; [reflexivity |]. simpl.
  intros H; apply andb_true_iff in H as [Hc Hr]. now rewrite (I c Hc), IH.
Qed.

Lemma toLowerCase_chars (s : string) :
  allChars (fun c => negb (isUpper c)) (toLowerCase s) = true.
Proof.
  induction s as [|c r IH]; [reflexivity |]. simpl.
  now rewrite lowerChar_not_upper, IH.
Qed.

Lemma trimStart_chars (p : ascii -> bool) (s : string) :
  allChars p s = true -> allChars p (trimStart s) = true.
Proof.
  induction s as [|c r IH]; [reflexivity |]. simpl.
  intros H. destruct (isWhiteSpace c); [| exact H].
  apply andb_true_iff in H as [_ Hr]. now apply IH.
Qed.

Lemma trimEnd_chars (p : ascii -> bool) (s : string) :
  allChars p s = true -> allChars p (trimEnd s) = true.
Proof.
  induction s as [|c r IH]; [reflexivity |]. simpl.
  intros H; apply andb_true_iff in H as [Hc Hr]. specialize (IH Hr).
  destruct (trimEnd r).
  - destruct (isWhiteSpace c); [reflexivity |]. simpl. now rewrite Hc.
  - simpl in *. now rewrite Hc, IH.
Qed.

Lemma dashSpaces_chars (b : bool) (s : string) :
  allChars (fun c => negb (isUpper c)) s = true ->
  allChars (fun c => negb (isUpper c)) (dashSpaces b s) = true.
Proof.
  revert b; induction s as [|c r IH]; intros b; [reflexivity |].
  cbn [allChars dashSpaces].
  intros H; apply andb_true_iff in H as [Hc Hr].
  destruct (isWhiteSpace c); [destruct b |]; cbn [allChars].
  - now apply IH.
  - apply andb_true_iff. split; [reflexivity | now apply IH].
  - apply andb_true_iff. split; [exact Hc | now apply IH].
Qed.

Lemma keepWord_chars (s : string) :
  allChars (fun c => negb (isUpper c)) s = true ->
  allChars slugChar (keepWord s) = true.
Proof.
  induction s as [|c r IH]; [reflexivity |]. simpl.
  intros H; apply andb_true_iff in H as [Hc Hr].
  destruct (isWord c || isDash c) eqn:W; [| now apply IH].
  simpl. apply negb_true_iff in Hc. now rewrite (word_slugChar c Hc W), IH.
Qed.

Lemma collapseDashes_chars (p : ascii -> bool) (b : bool) (s : string) :
  allChars p s = true -> allChars p (collapseDashes b s) = true.
Proof.
  revert b; induction s as [|c r IH]; intros b; [reflexivity |].
  cbn [allChars collapseDashes].
  intros H; apply andb_true_iff in H as [Hc Hr].
  destruct (isDash c); [destruct b |]; cbn [allChars].
  - now apply IH.
  - apply andb_true_iff. split; [exact Hc | now apply IH].
  - apply andb_true_iff. split; [exact Hc | now apply IH].
Qed.

Lemma noDoubleDash_cons (a b : ascii) (r : string) :
  noDoubleDash (String a (String b r))
  = negb (isDash a && isDash b) && noDoubleDash (String b r).
Proof. reflexivity. Qed.

(** After the last replacement no two dashes follow each other, and
    inside a run of dashes the result does not start with one. *)
Lemma collapseDashes_single (b : bool) (s : string) :
  noDoubleDash (collapseDashes b s) = true /\
  (b = true -> headDash (collapseDashes b s) = false).
Proof.
  revert b; induction s as [|c r IH]; intros b; [split; reflexivity |].
  cbn [collapseDashes]. destruct (isDash c) eqn:D.
  - destruct b.
    + apply IH.
    + split; [| discriminate].
      destruct (IH true) as [N H]. specialize (H eq_refl).
      destruct (collapseDashes true r) as [|d o]; [reflexivity |].
      rewrite noDoubleDash_cons, N. cbn [headDash] in H. rewrite H.
      now rewrite andb_false_r.
  - destruct (IH false) as [N _]. split.
    + destruct (collapseDashes false r) as [|d o]; [reflexivity |].
      rewrite noDoubleDash_cons, N. now rewrite D.
    + intros _. cbn [headDash]. exact D.
Qed.

Lemma collapseDashes_fixed (b : bool) (s : string) :
  noDoubleDash s = true -> (b = true -> headDash s = false) ->
  collapseDashes b s = s.
Proof.
  revert b; induction s as [|c r IH]; intros b N H; [reflexivity |].
  assert (Nr : noDoubleDash r = true).
  { destruct r as [|d r']; [reflexivity |].
    rewrite noDoubleDash_cons in N. now apply andb_true_iff in N as [_ N]. }
  cbn [collapseDashes]. destruct (isDash c) eqn:D.
  - destruct b; [specialize (H eq_refl); cbn [headDash] in H; congruence |].
    f_equal. apply IH; [exact Nr |].
    intros _. destruct r as [|d r']; [reflexivity |].
    rewrite noDoubleDash_cons in N. apply andb_true_iff in N as [N _].
    rewrite D in N. cbn [andb headDash] in *. now apply negb_true_iff in N.
  - f_equal. apply IH; [exact Nr | discriminate].
Qed.

(** A text made of characters of slugs goes through the first three
    steps as it is. *)
Lemma slug_steps_fixed (s : string) :
  allChars slugChar s = true ->
  toLowerCase s = s /\ trimStart s = s /\ trimEnd s = s /\
  (forall b, dashSpaces b s = s) /\ keepWord s = s.
Proof.
  induction s as [|c r IH]; [repeat split; reflexivity |]. simpl.
  intros H; apply andb_true_iff in H as [Hc Hr].
  destruct (slugChar_plain c Hc) as (L & W & K).
  destruct (IH Hr) as (IL & IS & IE & ID & IK).
  rewrite L, W, K, IL, IE, IK. repeat split; auto.
  - now destruct r.
  - intros b. now rewrite ID.
Qed.

Lemma slugify_Some (s : string) :
  slugify (Some s)
  = if String.eqb s "" then ""
    else collapseDashes false (keepWord (dashSpaces false (trim (toLowerCase s)))).
Proof. reflexivity. Qed.

Lemma slugify_chars (str : field) :
  allChars slugChar (slugify str) = true /\ noDoubleDash (slugify str) = true.
Proof.
  destruct str as [s|]; [| split; reflexivity].
  rewrite slugify_Some. destruct (String.eqb s ""); [split; reflexivity |].
  split; [| apply collapseDashes_single].
  apply collapseDashes_chars, keepWord_chars, dashSpaces_chars.
  unfold trim. apply trimEnd_chars, trimStart_chars, toLowerCase_chars.
Qed.

End SlugFacts.

Section SlugProperties.
Import JS Eleventy Spec.

(** X18: a slug is made of lower case letters, digits, underscores and
    dashes only, and no two dashes follow each other in it. *)
Theorem slugify_characters (str : field) :
  allChars slugChar (slugify str) = true /\ noDoubleDash (slugify str) = true.
Proof. apply slugify_chars. Qed.

(** X19: the slug of a slug is that slug. *)
Theorem slugify_idempotent (str : field) :
  slugify (Some (slugify str)) = slugify str.
Proof.
  destruct (slugify_chars str) as [C N].
  rewrite slugify_Some.
  destruct (String.eqb (slugify str) "") eqn:E;
    [apply String.eqb_eq in E; now rewrite E |].
  destruct (slug_steps_fixed _ C) as (L & S & T & D & K).
  unfold trim. rewrite L, S, T, D, K.
  apply collapseDashes_fixed; [exact N | discriminate].
Qed.

End SlugProperties.

(** ** The icon collector *)

Section IconFacts.
Import JS Eleventy Spec Arr.

Variable iconsets : string -> option IconSet.

Lemma has_keys (icons : Icons) (iconId : string) :
  has icons iconId = existsb (String.eqb iconId) (map fst icons).
Proof.
  unfold has. induction icons as [|e r IH]; [reflexivity |].
  cbn [existsb map]. now rewrite IH, (String.eqb_sym (fst e) iconId).
Qed.

Lemma has_In (icons : Icons) (iconId : string) :
  has icons iconId = true <-> In iconId (map fst icons).
Proof. rewrite has_keys. apply existsb_eqb. exact String.eqb_eq. Qed.

(** What has been seen matters as a set. *)
Lemma addNew_seen (l seen seen' : list string) :
  (forall x, In x seen <-> In x seen') ->
  addNew String.eqb seen l = addNew String.eqb seen' l.
Proof.
  revert seen seen'; induction l as [|x r IH]; intros seen seen' E;
    [reflexivity |].
  cbn [addNew].
  assert (X : existsb (String.eqb x) seen = existsb (String.eqb x) seen').
  { apply eq_true_iff_eq.
    rewrite !(existsb_eqb _ String.eqb_eq). apply E. }
  rewrite X. destruct (existsb (String.eqb x) seen').
  - now apply IH.
  - f_equal. apply IH. intros y. simpl. now rewrite E.
Qed.

Lemma register_keys (iconIds : list string) (icons : Icons) :
  map fst (fold_left (register iconsets) iconIds icons)
  = (map fst icons ++ addNew String.eqb (map fst icons) iconIds)%list.
Proof.
  revert icons; induction iconIds as [|x r IH]; intros icons.
  - cbn [fold_left addNew]. now rewrite app_nil_r.
  - cbn [fold_left addNew]. rewrite IH. unfold register.
    rewrite <- has_keys. destruct (has icons x); [reflexivity |].
    rewrite map_app. cbn [map fst]. rewrite <- app_assoc. cbn [app].
    f_equal. f_equal. apply addNew_seen.
    intros y. rewrite in_app_iff. simpl. tauto.
Qed.

Lemma register_data (iconIds : list string) (icons : Icons) :
  Forall (fun e => snd e = fetchIcon iconsets (fst e)) icons ->
  Forall (fun e => snd e = fetchIcon iconsets (fst e))
         (fold_left (register iconsets) iconIds icons).
Proof.
  revert icons; induction iconIds as [|x r IH]; intros icons F; [exact F |].
  cbn [fold_left]. apply IH. unfold register.
  destruct (has icons x); [exact F |].
  apply Forall_app. split; [exact F |]. now constructor.
Qed.

Lemma register_known (icons : Icons) (iconId : string) :
  has icons iconId = true -> register iconsets icons iconId = icons.
Proof. intros H. unfold register. now rewrite H. Qed.

Lemma register_has (icons : Icons) (iconId : string) :
  has (register iconsets icons iconId) iconId = true.
Proof.
  unfold register. destruct (has icons iconId) eqn:H; [exact H |].
  apply has_In. rewrite map_app, in_app_iff. right. now left.
Qed.

Lemma includesColon_split (s : string) :
  includesColon s = false -> split ":" s = [s].
Proof.
  induction s as [|c r IH]; [reflexivity |]. cbn [includesColon split].
  intros H; apply orb_false_iff in H as [Hc Hr].
  now rewrite Hc, (IH Hr).
Qed.

Lemma orNumber_nonzero (a : option Z) (b : Z) : b <> 0 -> orNumber a b <> 0.
Proof.
  intros Hb. unfold orNumber. destruct a as [v|]; [| exact Hb].
  destruct (v =? 0) eqn:E; [exact Hb | now apply Z.eqb_neq].
Qed.

Lemma expandId_colon (iconId : string) : includesColon (expandId iconId) = true.
Proof.
  unfold expandId. destruct (includesColon iconId) eqn:E; [exact E | reflexivity].
Qed.

Lemma symbols_none (icons : Icons) :
  flat_map symbolOf icons = [] <-> Forall (fun e => snd e = None) icons.
Proof.
  induction icons as [|e r IH]; [split; constructor |].
  cbn [flat_map]. unfold symbolOf at 1. split.
  - destruct (snd e) eqn:E; [discriminate |].
    cbn [app]. intros H. constructor; [exact E | now apply IH].
  - intros F. inversion F as [|? ? He Fr]; subst. rewrite He. cbn [app].
    now apply IH.
Qed.

End IconFacts.

Section IconProperties.
Import JS Eleventy Spec Arr.

(** X20: after the shortcodes of a build, the collector holds each icon
    that was asked for once, in the order of its first use, with the
    data [fetchIcon] finds for it. *)
Theorem collector_holds_each_icon_once
    (iconsets : string -> option IconSet) (iconIds : list string) :
  map fst (registerAll iconsets iconIds) = setOf String.eqb iconIds /\
  NoDup (map fst (registerAll iconsets iconIds)) /\
  Forall (fun e => snd e = fetchIcon iconsets (fst e)) (registerAll iconsets iconIds).
Proof.
  assert (K : map fst (registerAll iconsets iconIds) = setOf String.eqb iconIds)
    by (unfold registerAll; now rewrite register_keys).
  split; [exact K |]. split.
  - rewrite K. apply setOf_NoDup. exact String.eqb_eq.
  - apply register_data. constructor.
Qed.

(** X21: the shortcode registers the icon under an identifier with a
    set name, [lucide] when none was given; it keeps what the collector
    held, in its order; and a second use of the same icon changes
    nothing in the collector. *)
Theorem icon_shortcode_registers_once
    (iconsets : string -> option IconSet) (icons : Icons)
    (iconId className className' : string) :
  includesColon (expandId iconId) = true /\
  has (fst (iconShortcode iconsets icons iconId className)) (expandId iconId) = true /\
  (exists added, fst (iconShortcode iconsets icons iconId className)
                 = (icons ++ added)%list) /\
  fst (iconShortcode iconsets
         (fst (iconShortcode iconsets icons iconId className)) iconId className')
  = fst (iconShortcode iconsets icons iconId className).
Proof.
  cbn [iconShortcode fst].
  split; [apply expandId_colon |]. split; [apply register_has |]. split.
  - unfold register. destruct (has icons (expandId iconId)).
    + exists []. now rewrite app_nil_r.
    + now eexists.
  - apply register_known, register_has.
Qed.

(** X22: [generateSymbols] answers that no icon is registered exactly
    for the empty collector, and that no valid icon was found exactly
    for a collector that holds icons of which none was found. *)
Theorem generateSymbols_comments (icons : Icons) :
  (generateSymbols icons = "<!-- No icons registered -->" <-> icons = []) /\
  (generateSymbols icons = "<!-- No valid icons found -->" <->
   icons <> [] /\ Forall (fun e => snd e = None) icons).
Proof.
  destruct icons as [|e r].
  - split; split; try reflexivity; try discriminate.
    intros [H _]. now contradiction H.
  - unfold generateSymbols.
    destruct (flat_map symbolOf (e :: r)) as [|sym syms] eqn:F.
    + apply symbols_none in F. split; split; try discriminate; auto.
      intros _. split; [discriminate | exact F].
    + assert (N : ~ Forall (fun e => snd e = None) (e :: r)).
      { intros H. apply symbols_none in H. congruence. }
      cbn [append]. split; split; try discriminate.
      intros [_ H]. contradiction.
Qed.

(** X23: an icon that is found has a width and a height that are not
    zero, 24 when neither the icon nor its set gives one, and its view
    box is written from them; an identifier without a colon is never
    found. *)
Theorem fetchIcon_dimensions
    (iconsets : string -> option IconSet) (iconId : string) (data : IconData)
    (Hfound : fetchIcon iconsets iconId = Some data) :
  width data <> 0 /\ height data <> 0 /\
  viewBox data = "0 0 " ++ numberText (width data) ++ " " ++ numberText (height data) /\
  includesColon iconId = true.
Proof.
  unfold fetchIcon in Hfound.
  assert (C : includesColon iconId = true).
  { destruct (includesColon iconId) eqn:E; [reflexivity |].
    rewrite (includesColon_split _ E) in Hfound. discriminate. }
  destruct (split ":" iconId) as [|iconset [|iconname rest]]; try discriminate.
  destruct (String.eqb iconset "" || String.eqb iconname ""); [discriminate |].
  destruct (iconsets iconset) as [iconsetData|]; [| discriminate].
  destruct (setIcons iconsetData iconname) as [icon|]; [| discriminate].
  inversion Hfound; subst data; clear Hfound. cbn [width height viewBox].
  repeat split; auto; apply orNumber_nonzero, orNumber_nonzero; discriminate.
Qed.

Lemma fetchIcon_dimensions_witness :
  width {| body := "<path/>"; viewBox := "0 0 16 24"; width := 16; height := 24 |} <> 0 /\
  fetchIcon lucideOnly "lucide:home"
  = Some {| body := "<path/>"; viewBox := "0 0 16 24"; width := 16; height := 24 |}.
Proof.
  assert (F : fetchIcon lucideOnly "lucide:home"
              = Some {| body := "<path/>"; viewBox := "0 0 16 24";
                        width := 16; height := 24 |}) by reflexivity.
  split; [| exact F].
  exact (proj1 (fetchIcon_dimensions lucideOnly "lucide:home" _ F)).
Defined.

End IconProperties.
